(** * Flona chat: the real-time room session manager and its name resolver

    A shallow embedding of
      - [src/app/components/Chat/ChatRoom.tsx]   (session manager, name cache),
      - the message input component              (handleSend),
      - the [/api/messages] route                (GET, history fetch),
    followed by the properties of the specification that concern them.

    JavaScript strings are sequences of UTF-16 code units ([jsstring]);
    numbers that the code keeps in 32 bits are [Z] with the wrap written
    out ([toInt32]); [Map] and [Set] objects are stdpp's [gmap] and [gset];
    [async] functions are cut at their [await]s into the pieces that run
    without interruption. *)

From Stdlib Require Import ZArith Lia String Ascii List Sorted.
From stdpp Require Import gmap strings list fin_maps pretty.

Local Open Scope Z_scope.

(* ===================================================================== *)
(** ** JavaScript values                                                  *)
(* ===================================================================== *)

Module JS.

(** A JavaScript string: its UTF-16 code units, [charCodeAt i] is the
    i-th element. *)
Abbreviation jsstring := (list Z).

Fixpoint js (s : string) : jsstring :=
  match s with
  | EmptyString => []
  | String a rest => Z.of_N (N_of_ascii a) :: js rest
  end.

(** Truthiness of a string: only the empty string is falsy. *)
Definition truthy (s : jsstring) : bool :=
  match s with [] => false | _ :: _ => true end.

(** [a || b] on an optional string ([None] is [undefined] or [null]). *)
Definition or_else (a : option jsstring) (b : jsstring) : jsstring :=
  match a with
  | Some s => if truthy s then s else b
  | None => b
  end.

(** ToInt32: the signed 32-bit reading of an integer-valued number. *)
Definition toInt32 (x : Z) : Z := (x + 2 ^ 31) mod 2 ^ 32 - 2 ^ 31.

(** [x << n], [x >> n] and [x & y] on numbers, for a count [0 <= n < 32]. *)
Definition shl (x n : Z) : Z := toInt32 (Z.shiftl (toInt32 x) n).
Definition sar (x n : Z) : Z := Z.shiftr (toInt32 x) n.
Definition band (x y : Z) : Z := Z.land (toInt32 x) (toInt32 y).

(** [x % y] for numbers: the sign follows the dividend. *)
Definition rem (x y : Z) : Z := Z.rem x y.

(** White space and line terminators, as [String.prototype.trim] sees them. *)
Definition is_space (c : Z) : bool :=
  (c =? 9) || (c =? 10) || (c =? 11) || (c =? 12) || (c =? 13) || (c =? 32)
  || (c =? 160) || (c =? 5760) || ((8192 <=? c) && (c <=? 8202))
  || (c =? 8232) || (c =? 8233) || (c =? 8239) || (c =? 8287)
  || (c =? 12288) || (c =? 65279).

Fixpoint trimStart (s : jsstring) : jsstring :=
  match s with
  | [] => []
  | c :: rest => if is_space c then trimStart rest else s
  end.

Definition trim (s : jsstring) : jsstring :=
  rev (trimStart (rev (trimStart s))).

(** [encodeURIComponent] throws a URIError on a lone surrogate. *)
Definition is_high (c : Z) : bool := (55296 <=? c) && (c <=? 56319).
Definition is_low (c : Z) : bool := (56320 <=? c) && (c <=? 57343).

Fixpoint lone_surrogate (s : jsstring) : bool :=
  match s with
  | [] => false
  | c :: rest =>
      if is_high c then
        match rest with
        | d :: rest' => if is_low d then lone_surrogate rest' else true
        | [] => true
        end
      else if is_low c then true
      else lone_surrogate rest
  end.

End JS.
Import JS.

(* ===================================================================== *)
(** ** Fallback names: [generateAnonymousName]                            *)
(* ===================================================================== *)

Definition adjectives : list jsstring :=
  map js ["Happy"; "Bright"; "Quick"; "Clever"; "Swift";
          "Bold"; "Calm"; "Cool"; "Keen"; "Nice"]%string.

Definition animals : list jsstring :=
  map js ["Panda"; "Eagle"; "Tiger"; "Wolf"; "Fox";
          "Hawk"; "Owl"; "Dolphin"; "Phoenix"; "Dragon"]%string.

(** An array read; out of range it is [undefined], which a template
    literal prints as the word. *)
Definition index (words : list jsstring) (i : Z) : jsstring :=
  if i <? 0 then js "undefined"
  else nth (Z.to_nat i) words (js "undefined").

(** One turn of the loop body:
      hash = ((hash << 5) - hash) + char
      hash = hash & hash *)
Definition hash_step (hash char : Z) : Z :=
  let hash := (shl hash 5 - hash) + char in
  band hash hash.

Definition email_hash (email : jsstring) : Z :=
  fold_left hash_step email 0.

Definition generateAnonymousName (email : jsstring) : jsstring :=
  let hash := email_hash email in
  let adjIndex := rem (Z.abs hash) (Z.of_nat (length adjectives)) in
  let animIndex := rem (Z.abs (sar hash 8)) (Z.of_nat (length animals)) in
  index adjectives adjIndex ++ js " " ++ index animals animIndex.

(** The algorithm as the specification words it: a rolling hash
    [hash*31 + charCode] wrapped to signed 32 bits at every step, then
    [abs(hash) mod |adjectives|] and [abs(hash >> 8) mod |animals|]. *)
Definition wrap32 (x : Z) : Z :=
  let r := x mod 4294967296 in
  if r <? 2147483648 then r else r - 4294967296.

Definition spec_hash (email : jsstring) : Z :=
  fold_left (fun hash char => wrap32 (hash * 31 + char)) email 0.

Definition spec_fallback_name (email : jsstring) : jsstring :=
  let hash := spec_hash email in
  let adj :=
    nth (Z.to_nat (Z.abs hash mod Z.of_nat (length adjectives))) adjectives [] in
  let noun :=
    nth (Z.to_nat (Z.abs (Z.shiftr hash 8) mod Z.of_nat (length animals))) animals [] in
  adj ++ js " " ++ noun.

(* ===================================================================== *)
(** ** The message record shared by the route and the client             *)
(* ===================================================================== *)

Module Message.
Record t : Type := mk {
  id : jsstring;
  text : jsstring;
  userName : jsstring;
  userEmail : jsstring;
  timestamp : Z;
  reactions : list (jsstring * list jsstring)
}.
End Message.

(* ===================================================================== *)
(** ** [/api/messages]: the GET handler                                   *)
(* ===================================================================== *)

Module MessagesRoute.

(** A row of [chat_messages] joined with its user's [flona_name]. *)
Record ChatMessage : Type := mkRow {
  id : jsstring;
  user_id : jsstring;
  user_name : jsstring;
  user_email : jsstring;
  text : jsstring;
  created_at : Z;                     (* epoch milliseconds *)
  user_flona_name : option jsstring
}.

(** [orderBy: { created_at: 'asc' }]: rows by ascending creation time
    (rows written at the same time keep their table order). *)
Fixpoint insert_asc (r : ChatMessage) (rows : list ChatMessage) : list ChatMessage :=
  match rows with
  | [] => [r]
  | r' :: rest =>
      if created_at r <=? created_at r' then r :: rows
      else r' :: insert_asc r rest
  end.

Definition orderBy_created_at_asc (rows : list ChatMessage) : list ChatMessage :=
  fold_right insert_asc [] rows.

(** [findMany({ orderBy: { created_at: 'asc' }, take: 100, ... })]:
    a positive [take] keeps the first rows of the ordered result. *)
Definition findMany (rows : list ChatMessage) : list ChatMessage :=
  firstn 100 (orderBy_created_at_asc rows).

Definition format (msg : ChatMessage) : Message.t :=
  Message.mk (id msg) (text msg)
             (or_else (user_flona_name msg) (user_name msg))
             (user_email msg) (created_at msg) [].

Inductive Response : Type :=
| Json (status : Z) (body : list Message.t)
| JsonError (status : Z) (error : jsstring).

(** The table is [None] when the query throws. *)
Definition GET (table : option (list ChatMessage)) : Response :=
  match table with
  | Some rows => Json 200 (map format (findMany rows))
  | None => JsonError 500 (js "Failed to fetch messages")
  end.

(** Ascending creation time, as a relation on rows. *)
Definition older_eq (a b : ChatMessage) : Prop := created_at a <= created_at b.

Definition body_of (r : Response) : list Message.t :=
  match r with Json _ b => b | JsonError _ _ => [] end.

End MessagesRoute.

(* ===================================================================== *)
(** ** Outcomes of the network calls the client awaits                   *)
(* ===================================================================== *)

(** What [response.json()] yields for the flona-name lookup: it throws, or
    gives an object whose [flonaName] is a string or absent / null. *)
Inductive JsonBody : Type :=
| BodyThrows
| BodyData (flonaName : option jsstring).

(** [fetch] rejects (network error), or resolves to a response. *)
Inductive FetchResult : Type :=
| FetchRejects
| FetchResponse (ok : bool) (body : JsonBody).

(** The lookup failed or found no name: it rejects, answers with a
    non-success status, its body does not parse, or [flonaName] is absent,
    null or empty. *)
Definition store_unavailable (r : FetchResult) : Prop :=
  match r with
  | FetchRejects => True
  | FetchResponse false _ => True
  | FetchResponse true BodyThrows => True
  | FetchResponse true (BodyData None) => True
  | FetchResponse true (BodyData (Some name)) => truthy name = false
  end.

(** Operations the client issues on its collaborators, in program order. *)
Inductive SubKind : Type := MessagesSub | ReactionsSub | TypingSub | PresenceSub.

Inductive Effect : Type :=
| FetchFlonaName (email : jsstring)
| NewRealtime (client : nat) (clientId : option jsstring)
| NewChatClient (client : nat)
| RoomsGet
| Attach (room : nat)
| Detach (room : nat)
| FetchHistory
| Subscribe (kind : SubKind)
| Unsubscribe (kind : SubKind)
| PresenceEnter (name : jsstring)
| PresenceGet
| PersistPOST (text : jsstring)
| Publish (text : jsstring)
| TypingKeystroke
| TypingStop
| ConsoleError (what : string)
| Alert (what : string).

#[global] Instance SubKind_eq_dec : EqDecision SubKind.
Proof. solve_decision. Defined.

#[global] Instance Effect_eq_dec : EqDecision Effect.
Proof. solve_decision. Defined.

(* ===================================================================== *)
(** ** [ChatRoom]: state held by the component                            *)
(* ===================================================================== *)

(** [session.user]: the fields the component reads. *)
Record User : Type := mkUser {
  email : option jsstring;
  flonaName : option jsstring
}.

(** What [subscribe] returned; the handler it registered closes over the
    room and the session of the run that registered it. *)
Record Subscription : Type := mkSub {
  sub_kind : SubKind;
  sub_room : nat;
  sub_user : User
}.

(** A presence member as [presence.get()] reports it. *)
Record PresenceMember : Type := mkMember {
  clientId : jsstring;
  member_name : jsstring
}.

(** The [useState] cells and the [useRef] slots of one mounted component.
    Transport objects are handles (numbers). *)
Record ChatState : Type := mkState {
  messages : list Message.t;
  room : option nat;
  onlineUsers : list PresenceMember;
  typingUsers : gset jsstring;
  realtimeClientRef : option nat;
  chatClientRef : option nat;
  currentRoomRef : option nat;
  subscriptionsRef : list Subscription;
  messageIdsRef : gset jsstring;
  isInitializedRef : bool;
  connectionPromiseRef : option nat;      (* the client the promise listens to *)
  flonaNameCacheRef : gmap jsstring jsstring
}.

Definition initial_state : ChatState :=
  mkState [] None [] ∅ None None None [] ∅ false None ∅.

Definition setMessages v '(mkState _ b c d e f g h i j k l) := mkState v b c d e f g h i j k l.
Definition setRoom v '(mkState a _ c d e f g h i j k l) := mkState a v c d e f g h i j k l.
Definition setOnlineUsers v '(mkState a b _ d e f g h i j k l) := mkState a b v d e f g h i j k l.
Definition setTypingUsers v '(mkState a b c _ e f g h i j k l) := mkState a b c v e f g h i j k l.
Definition set_realtimeClientRef v '(mkState a b c d _ f g h i j k l) := mkState a b c d v f g h i j k l.
Definition set_chatClientRef v '(mkState a b c d e _ g h i j k l) := mkState a b c d e v g h i j k l.
Definition set_currentRoomRef v '(mkState a b c d e f _ h i j k l) := mkState a b c d e f v h i j k l.
Definition set_subscriptionsRef v '(mkState a b c d e f g _ i j k l) := mkState a b c d e f g v i j k l.
Definition set_messageIdsRef v '(mkState a b c d e f g h _ j k l) := mkState a b c d e f g h v j k l.
Definition set_isInitializedRef v '(mkState a b c d e f g h i _ k l) := mkState a b c d e f g h i v k l.
Definition set_connectionPromiseRef v '(mkState a b c d e f g h i j _ l) := mkState a b c d e f g h i j v l.
Definition set_flonaNameCacheRef v '(mkState a b c d e f g h i j k _) := mkState a b c d e f g h i j k v.

(* ===================================================================== *)
(** ** [getFlonaName]                                                     *)
(* ===================================================================== *)

(** The part of [getFlonaName] that follows a cache miss, given how the
    lookup ended: the name returned (and stored in the cache). *)
Definition name_after_lookup (email : jsstring) (r : FetchResult) : jsstring :=
  match r with
  | FetchResponse true (BodyData flonaName) =>
      or_else flonaName (generateAnonymousName email)
  | FetchResponse true BodyThrows        (* caught: falls to the fallback *)
  | FetchResponse false _
  | FetchRejects => generateAnonymousName email
  end.

(** Where a call of [getFlonaName] stands after its synchronous start. *)
Inductive NameTask : Type :=
| NameCached (name : jsstring)       (* cache hit: returned at once *)
| NameLookup (email : jsstring)      (* suspended at [await fetch(...)] *)
| NameURIError (email : jsstring).   (* [encodeURIComponent] threw, caught *)

(** [getFlonaName] up to its first [await]. The request URL is built
    inside the [try], so a URIError is caught like a failed lookup,
    before anything is sent. *)
Definition getFlonaName_begin (cache : gmap jsstring jsstring) (email : jsstring)
    : NameTask * list Effect :=
  match cache !! email with
  | Some name => (NameCached name, [])
  | None =>
      if lone_surrogate email then (NameURIError email, [])
      else (NameLookup email, [FetchFlonaName email])
  end.

(** [getFlonaName] from the point it resumes, [r] being how the lookup
    ended (unused unless one was sent). *)
Definition getFlonaName_finish (t : NameTask) (r : FetchResult)
    (cache : gmap jsstring jsstring) : jsstring * gmap jsstring jsstring :=
  match t with
  | NameCached name => (name, cache)
  | NameLookup email =>
      let name := name_after_lookup email r in (name, <[email := name]> cache)
  | NameURIError email =>
      let fallback := generateAnonymousName email in
      (fallback, <[email := fallback]> cache)
  end.

(** A whole call against a store that answers [fetch email], nothing else
    running in between: the name, the cache afterwards, the lookups sent. *)
Definition getFlonaName (fetch : jsstring -> FetchResult)
    (cache : gmap jsstring jsstring) (email : jsstring)
    : jsstring * gmap jsstring jsstring * list Effect :=
  let '(t, sent) := getFlonaName_begin cache email in
  let '(name, cache) := getFlonaName_finish t (fetch email) cache in
  (name, cache, sent).

(* ===================================================================== *)
(** ** History seeding (the [try] block after the room is attached)       *)
(* ===================================================================== *)

(** How [fetch('/api/messages')] and [response.json()] ended. *)
Inductive HistoryResult : Type :=
| HistoryRejects                                   (* fetch or json() throws *)
| HistoryResponse (ok : bool) (body : list Message.t).

(** One turn of [historicalMessages.forEach]. *)
Definition seed_one (s : ChatState) (msg : Message.t) : ChatState :=
  let s := set_messageIdsRef ({[Message.id msg]} ∪ messageIdsRef s) s in
  if truthy (Message.userEmail msg) && truthy (Message.userName msg)
  then set_flonaNameCacheRef
         (<[Message.userEmail msg := Message.userName msg]> (flonaNameCacheRef s)) s
  else s.

Definition loadHistory (h : HistoryResult) (s : ChatState) : ChatState :=
  match h with
  | HistoryResponse true historicalMessages =>
      fold_left seed_one historicalMessages (setMessages historicalMessages s)
  | HistoryResponse false _ => s
  | HistoryRejects => s
  end.

(* ===================================================================== *)
(** ** The four delivery handlers                                         *)
(* ===================================================================== *)

Definition option_cons {A} (o : option A) (l : list A) : list A :=
  match o with Some x => x :: l | None => l end.

(** A live message event, as the handler reads it. *)
Record MessageEvent : Type := mkEvent {
  serial : jsstring;
  ev_clientId : jsstring;
  ev_text : jsstring;
  ev_timestamp : Z
}.

(** [messageEvent.message.serial || Date.now().toString()] *)
Definition messageId (now : Z) (ev : MessageEvent) : jsstring :=
  if truthy (serial ev) then serial ev else js (pretty now).

(** A message handler suspended at [await getFlonaName(clientEmail)]
    ([None]: no client id, the name is the literal 'Anonymous'). *)
Record Pending : Type := mkPending {
  p_id : jsstring;
  p_event : MessageEvent;
  p_name : option NameTask
}.

(** The message handler up to its only [await]: the membership test and
    the insertion run back to back. [None]: the event was discarded. *)
Definition messageSub_begin (now : Z) (ev : MessageEvent) (s : ChatState)
    : ChatState * option Pending * list Effect :=
  let id := messageId now ev in
  if decide (id ∈ messageIdsRef s) then (s, None, [])
  else
    let s := set_messageIdsRef ({[id]} ∪ messageIdsRef s) s in
    let clientEmail := ev_clientId ev in
    if truthy clientEmail then
      let '(t, sent) := getFlonaName_begin (flonaNameCacheRef s) clientEmail in
      (s, Some (mkPending id ev (Some t)), sent)
    else (s, Some (mkPending id ev None), []).

(** The rest of the handler, run when the name is there. *)
Definition messageSub_finish (r : FetchResult) (p : Pending) (s : ChatState)
    : ChatState :=
  let '(userName, s) :=
    match p_name p with
    | Some t =>
        let '(name, cache) := getFlonaName_finish t r (flonaNameCacheRef s) in
        (name, set_flonaNameCacheRef cache s)
    | None => (js "Anonymous", s)
    end in
  let newMessage :=
    Message.mk (p_id p) (ev_text (p_event p)) userName (ev_clientId (p_event p))
               (ev_timestamp (p_event p)) [] in
  setMessages (messages s ++ [newMessage]) s.

(** The handler run in one piece (no other callback in between). *)
Definition messageSub (fetch : jsstring -> FetchResult) (now : Z)
    (ev : MessageEvent) (s : ChatState) : ChatState :=
  match messageSub_begin now ev s with
  | (s, Some p, _) => messageSub_finish (fetch (ev_clientId ev)) p s
  | (s, None, _) => s
  end.

(** [new Set(iterable)]: first occurrences, in order. *)
Fixpoint new_Set (l : list jsstring) : list jsstring :=
  match l with
  | [] => []
  | x :: rest => x :: filter (fun y => y ≠ x) (new_Set rest)
  end.

(** [typingSet.delete(session.user.email)], guarded by the email being truthy. *)
Definition delete_self (user : User) (typingSet : list jsstring) : list jsstring :=
  match email user with
  | Some e => if truthy e then filter (fun y => y ≠ e) typingSet else typingSet
  | None => typingSet
  end.

(** The [for ... of] loop: names in order, the cache threaded through. *)
Fixpoint resolve_all (fetch : jsstring -> FetchResult)
    (cache : gmap jsstring jsstring) (emails : list jsstring)
    : list jsstring * gmap jsstring jsstring :=
  match emails with
  | [] => ([], cache)
  | e :: rest =>
      let '(name, cache, _) := getFlonaName fetch cache e in
      let '(names, cache) := resolve_all fetch cache rest in
      (name :: names, cache)
  end.

Definition typingSub (fetch : jsstring -> FetchResult) (user : User)
    (currentlyTyping : list jsstring) (s : ChatState) : ChatState :=
  let typingSet := delete_self user (new_Set currentlyTyping) in
  let '(flonaNames, cache) := resolve_all fetch (flonaNameCacheRef s) typingSet in
  setTypingUsers (list_to_set flonaNames) (set_flonaNameCacheRef cache s).

(** A presence event; the handler never reads it. *)
Record PresenceEvent : Type := mkPresenceEvent {
  pe_action : jsstring;
  pe_member : PresenceMember
}.

(** The presence handler: with a room in the slot it sends the member
    query; the event is not read. *)
Definition presenceSub (presenceEvent : PresenceEvent) (s : ChatState) : list Effect :=
  match currentRoomRef s with
  | Some _ => [PresenceGet]
  | None => []
  end.

(** The [.then] callback, run with what the query resolved to. *)
Definition presenceSub_then (members : list PresenceMember) (s : ChatState)
    : ChatState :=
  setOnlineUsers members s.

(** Notification, query and callback in one piece. *)
Definition presence_changed (query : list PresenceMember)
    (presenceEvent : PresenceEvent) (s : ChatState) : ChatState :=
  match presenceSub presenceEvent s with
  | [] => s
  | _ :: _ => presenceSub_then query s
  end.

(* ===================================================================== *)
(** ** [sendMessage] and [handleTyping]                                   *)
(* ===================================================================== *)

(** How [fetch('/api/messages', { method: 'POST', ... })] ended; [jsonOk]
    tells whether [dbResponse.json()], read only on a non-ok response,
    parses. *)
Inductive PersistResult : Type :=
| PersistRejects
| PersistResponse (ok : bool) (jsonOk : bool).

(** How [room.messages.send({ text })] ended. *)
Inductive PublishResult : Type :=
| PublishOk
| PublishRejects.

Definition send_catch : list Effect :=
  [ConsoleError "Failed to send message:";
   Alert "Failed to send message. Please try again."].

Definition publish_part (text : jsstring) (publish : PublishResult) : list Effect :=
  Publish text :: match publish with
                  | PublishOk => []
                  | PublishRejects => send_catch
                  end.

(** [sendMessage text]: the operations it issues, in order. *)
Definition sendMessage (s : ChatState) (session : option User) (text : jsstring)
    (persist : PersistResult) (publish : PublishResult) : list Effect :=
  match room s, session with
  | Some _, Some _ =>
      PersistPOST text ::
        match persist with
        | PersistRejects => send_catch
        | PersistResponse true _ => publish_part text publish
        | PersistResponse false true =>
            ConsoleError "Failed to save message to database:"
              :: publish_part text publish
        | PersistResponse false false => send_catch
        end
  | _, _ => [ConsoleError "Cannot send message: room or session not available"]
  end.

Definition handleTyping (s : ChatState) (isTyping : bool) : list Effect :=
  match room s with
  | None => []
  | Some _ => if isTyping then [TypingKeystroke] else [TypingStop]
  end.

(* ===================================================================== *)
(** ** The unmount cleanup                                                *)
(* ===================================================================== *)

(** The cleanup of the second effect. [unsub_throws] and [detach_throws]
    say which transport calls throw; each is caught and logged. *)
Definition teardown (unsub_throws : Subscription -> bool) (detach_throws : bool)
    (s : ChatState) : ChatState * list Effect :=
  let unsubscribed :=
    flat_map (fun sub =>
                Unsubscribe (sub_kind sub) ::
                  (if unsub_throws sub then [ConsoleError "Error unsubscribing:"] else []))
             (subscriptionsRef s) in
  let s := set_subscriptionsRef [] s in
  let '(s, detached) :=
    match currentRoomRef s with
    | Some r =>
        (set_currentRoomRef None s,
         Detach r :: (if detach_throws then [ConsoleError "Error detaching room:"] else []))
    | None => (s, [])
    end in
  let s := set_messageIdsRef ∅ s in
  let s := set_isInitializedRef false s in
  (s, unsubscribed ++ detached).

(* ===================================================================== *)
(** ** The message input component                                        *)
(* ===================================================================== *)

Module MessageInput.

Record State : Type := mkInput {
  text : jsstring;
  typingTimeoutRef : option nat;
  isTypingRef : bool
}.

Inductive Call : Type :=
| OnSend (text : jsstring)
| OnTyping (isTyping : bool)
| ClearTimeout (timer : nat).

(** [handleSend]; [onTyping] tells whether the prop was given. The call
    of [onSend] is not awaited and its result is not read. *)
Definition handleSend (onTyping : bool) (s : State) : State * list Call :=
  if truthy (trim (text s)) then
    let sent := [OnSend (trim (text s))] in
    let s := mkInput [] (typingTimeoutRef s) (isTypingRef s) in
    let '(s, stopped) :=
      if isTypingRef s && onTyping
      then (mkInput (text s) (typingTimeoutRef s) false, [OnTyping false])
      else (s, []) in
    let cleared :=
      match typingTimeoutRef s with
      | Some timer => [ClearTimeout timer]
      | None => []
      end in
    (s, sent ++ stopped ++ cleared)
  else (s, []).

End MessageInput.

(** [sendMessage] from its first line to its first [await]: the guard,
    then the request to the store is issued. The flag tells whether the
    call is suspended there. *)
Definition sendMessage_begin (s : ChatState) (session : option User)
    (text : jsstring) : list Effect * bool :=
  match room s, session with
  | Some _, Some _ => ([PersistPOST text], true)
  | _, _ => ([ConsoleError "Cannot send message: room or session not available"], false)
  end.

(** [sendMessage] from the settling of the request on. *)
Definition sendMessage_resume (text : jsstring) (persist : PersistResult)
    (publish : PublishResult) : list Effect :=
  match persist with
  | PersistRejects => send_catch
  | PersistResponse true _ => publish_part text publish
  | PersistResponse false true =>
      ConsoleError "Failed to save message to database:" :: publish_part text publish
  | PersistResponse false false => send_catch
  end.

(** The input wired to the chat room as [ChatRoom] renders it:
    [<MessageInput onSend={sendMessage} onTyping={handleTyping} />].
    One call of the input, from its start to its end. *)
Definition run_call (s : ChatState) (session : option User)
    (persist : PersistResult) (publish : PublishResult)
    (c : MessageInput.Call) : list Effect :=
  match c with
  | MessageInput.OnSend text => sendMessage s session text persist publish
  | MessageInput.OnTyping b => handleTyping s b
  | MessageInput.ClearTimeout _ => []
  end.

(** What a call of the input does before it returns to [handleSend]:
    an async function runs to its first [await]. *)
Definition call_begin (s : ChatState) (session : option User)
    (c : MessageInput.Call) : list Effect :=
  match c with
  | MessageInput.OnSend text => (sendMessage_begin s session text).1
  | MessageInput.OnTyping b => handleTyping s b
  | MessageInput.ClearTimeout _ => []
  end.

(** What the call does once [handleSend] has returned and the promise it
    awaits settles. *)
Definition call_resume (s : ChatState) (session : option User)
    (persist : PersistResult) (publish : PublishResult)
    (c : MessageInput.Call) : list Effect :=
  match c with
  | MessageInput.OnSend text =>
      if (sendMessage_begin s session text).2
      then sendMessage_resume text persist publish
      else []
  | MessageInput.OnTyping _ => []
  | MessageInput.ClearTimeout _ => []
  end.

(** The click on the send button, to the return of [handleSend]: the
    input after it and the operations issued by then. Nothing of what the
    store or the channel will answer is known at this point. *)
Definition click_send (input : MessageInput.State) (s : ChatState)
    (session : option User) : MessageInput.State * list Effect :=
  let '(input, calls) := MessageInput.handleSend true input in
  (input, flat_map (call_begin s session) calls).

(** The click and what follows it when the promises settle, in the
    order of execution. *)
Definition press_send (input : MessageInput.State) (s : ChatState)
    (session : option User) (persist : PersistResult) (publish : PublishResult)
    : MessageInput.State * list Effect :=
  let '(input, calls) := MessageInput.handleSend true input in
  (input, flat_map (call_begin s session) calls
            ++ flat_map (call_resume s session persist publish) calls).

(* ===================================================================== *)
(** ** Activation: [setupChat] and the effect that calls it               *)
(* ===================================================================== *)

Inductive ConnState : Type := StConnecting | StConnected | StFailed.

(** The [await] at which a call of [setupChat] is suspended. *)
Inductive Pc : Type :=
| AwaitConnect          (* await connectionPromiseRef.current *)
| AwaitRoomsGet         (* await chatClientRef.current.rooms.get(...) *)
| AwaitAttach           (* await currentRoomRef.current.attach() *)
| AwaitHistory          (* await fetch('/api/messages'), response.json() *)
| AwaitPresenceEnter    (* await currentRoomRef.current.presence.enter(...) *)
| AwaitPresenceGet.     (* await currentRoomRef.current.presence.get() *)

(** A suspended call with the variables of its closure: [isMounted] of
    the effect run that made the call, the local [realtimeClient], and
    [session] and [currentUserFlonaName] as that render saw them. *)
Record Task : Type := mkTask {
  pc : Pc;
  isMounted : bool;
  realtimeClient : nat;
  t_user : User;
  t_name : jsstring
}.

Definition at_pc (p : Pc) (t : Task) : Task :=
  mkTask p (isMounted t) (realtimeClient t) (t_user t) (t_name t).

Definition unmounted (t : Task) : Task :=
  mkTask (pc t) false (realtimeClient t) (t_user t) (t_name t).

(** The component together with the transport: connection state of every
    client made so far, the suspended calls, and the operations issued. *)
Record World : Type := mkWorld {
  refs : ChatState;
  conn : gmap nat ConnState;
  clients : nat;
  tasks : list Task;
  log : list Effect
}.

Definition initial_world : World := mkWorld initial_state ∅ 0%nat [] [].

Definition on_refs (f : ChatState -> ChatState) (w : World) : World :=
  mkWorld (f (refs w)) (conn w) (clients w) (tasks w) (log w).

Definition emit (es : list Effect) (w : World) : World :=
  mkWorld (refs w) (conn w) (clients w) (tasks w) (log w ++ es).

Definition set_conn (c : nat) (st : ConnState) (w : World) : World :=
  mkWorld (refs w) (<[c := st]> (conn w)) (clients w) (tasks w) (log w).

Definition set_tasks (ts : list Task) (w : World) : World :=
  mkWorld (refs w) (conn w) (clients w) ts (log w).

(** The outer [catch] of [setupChat]. What is thrown on the paths that
    reach it is an [Error] (the connection promise rejects with
    [new Error], the empty room slot gives [new Error] or a TypeError,
    the transport rejects with its [ErrorInfo], a subclass of [Error]),
    so the stack is logged after the message. *)
Definition setupChat_catch (w : World) : World :=
  on_refs (set_isInitializedRef false)
    (emit [ConsoleError "Failed to setup chat:"; ConsoleError "Error details:"] w).

(** The inner [catch (roomError)]: logs and throws again. *)
Definition room_catch (w : World) : World :=
  setupChat_catch (emit [ConsoleError "Failed to get/attach room:"] w).

(** From the history fetch on. *)
Definition seg_history (t : Task) (w : World) : World * option Task :=
  (emit [FetchHistory] w, Some (at_pc AwaitHistory t)).

(** After the room is there: [if (!isMounted) return], [setRoom]. *)
Definition seg_room_ready (t : Task) (w : World) : World * option Task :=
  if negb (isMounted t) then (w, None)
  else seg_history t (on_refs (fun s => setRoom (currentRoomRef s) s) w).

(** After the connection is there: [if (!isMounted) return], the chat
    client, the room. *)
Definition seg_connected (t : Task) (w : World) : World * option Task :=
  if negb (isMounted t) then (w, None)
  else
    let w :=
      match chatClientRef (refs w) with
      | None => emit [NewChatClient (realtimeClient t)]
                  (on_refs (set_chatClientRef (Some (realtimeClient t))) w)
      | Some _ => w
      end in
    match currentRoomRef (refs w) with
    | None => (emit [RoomsGet] w, Some (at_pc AwaitRoomsGet t))
    | Some _ => seg_room_ready t w
    end.

Definition four_subscriptions (r : nat) (u : User) : list Subscription :=
  [mkSub MessagesSub r u; mkSub ReactionsSub r u;
   mkSub TypingSub r u; mkSub PresenceSub r u].

(** After the history: the subscriptions, then [presence.enter]. Reading
    a property of an empty room slot is a TypeError, caught at the end. *)
Definition seg_subscribe (t : Task) (w : World) : World * option Task :=
  match currentRoomRef (refs w) with
  | None => (setupChat_catch w, None)
  | Some r =>
      let w :=
        match subscriptionsRef (refs w) with
        | [] => emit [Subscribe MessagesSub; Subscribe ReactionsSub;
                      Subscribe TypingSub; Subscribe PresenceSub]
                  (on_refs (set_subscriptionsRef (four_subscriptions r (t_user t))) w)
        | _ :: _ => w
        end in
      (emit [PresenceEnter (t_name t)] w, Some (at_pc AwaitPresenceEnter t))
  end.

(** [setupChat()] from its first line to its first [await]; it is called
    right after [let isMounted = true]. *)
Definition setupChat (session : option User) (currentUserFlonaName : jsstring)
    (w : World) : World * option Task :=
  let isMounted := true in
  if isInitializedRef (refs w) || negb isMounted then (w, None)
  else
    match session with
    | None => (w, None)
    | Some user =>
        let w := on_refs (set_isInitializedRef true) w in
        let reusable :=
          match realtimeClientRef (refs w) with
          | Some c => match conn w !! c with
                      | Some StConnected => Some c
                      | _ => None
                      end
          | None => None
          end in
        match reusable with
        | Some c =>
            seg_connected (mkTask AwaitConnect isMounted c user currentUserFlonaName) w
        | None =>
            let c := clients w in
            let w := mkWorld (set_realtimeClientRef (Some c) (refs w))
                             (<[c := StConnecting]> (conn w)) (S c) (tasks w)
                             (log w ++ [NewRealtime c (email user)]) in
            let w :=
              match connectionPromiseRef (refs w) with
              | None => on_refs (set_connectionPromiseRef (Some c)) w
              | Some _ => w
              end in
            (w, Some (mkTask AwaitConnect isMounted c user currentUserFlonaName))
        end
    end.

(** How the connection promise settles. *)
Inductive ConnOutcome : Type := ConnConnected | ConnFailed | ConnTimeout.

(** How the promise a suspended call awaits settles. *)
Inductive AwaitResult : Type :=
| Rejected
| RoomsGetOk (room : option nat)
| AttachOk
| HistoryDone (h : HistoryResult)
| EnterOk
| MembersOk (members : list PresenceMember).

(** A call suspended at [await connectionPromiseRef.current] resumes:
    on rejection it goes to the outer [catch]. *)
Definition settle_connection (o : ConnOutcome) (t : Task) (w : World)
    : World * option Task :=
  match o with
  | ConnConnected => seg_connected t w
  | ConnFailed | ConnTimeout => (setupChat_catch w, None)
  end.

(** A suspended call resumes with [r] and runs to its next [await]. *)
Definition resume (t : Task) (r : AwaitResult) (w : World) : World * option Task :=
  match pc t, r with
  | AwaitRoomsGet, RoomsGetOk (Some room) =>
      (emit [Attach room] (on_refs (set_currentRoomRef (Some room)) w),
       Some (at_pc AwaitAttach t))
  | AwaitRoomsGet, RoomsGetOk None =>
      (room_catch (on_refs (set_currentRoomRef None) w), None)
  | AwaitRoomsGet, Rejected => (room_catch w, None)
  | AwaitAttach, AttachOk => seg_room_ready t w
  | AwaitAttach, Rejected => (room_catch w, None)
  | AwaitHistory, HistoryDone h =>
      let w := match h with
               | HistoryRejects => emit [ConsoleError "Failed to load message history:"] w
               | HistoryResponse _ _ => w
               end in
      seg_subscribe t (on_refs (loadHistory h) w)
  | AwaitPresenceEnter, EnterOk =>
      match currentRoomRef (refs w) with
      | None => (setupChat_catch w, None)
      | Some _ => (emit [PresenceGet] w, Some (at_pc AwaitPresenceGet t))
      end
  | AwaitPresenceEnter, Rejected => (setupChat_catch w, None)
  | AwaitPresenceGet, MembersOk members => (on_refs (setOnlineUsers members) w, None)
  | AwaitPresenceGet, Rejected => (setupChat_catch w, None)
  | _, _ => (w, Some t)
  end.

(** Every call suspended on the connection promise resumes, in order. *)
Fixpoint resume_connect (o : ConnOutcome) (ts : list Task) (w : World)
    : World * list Task :=
  match ts with
  | [] => (w, [])
  | t :: rest =>
      match pc t with
      | AwaitConnect =>
          let '(w, t') := settle_connection o t w in
          let '(w, rest') := resume_connect o rest w in
          (w, option_cons t' rest')
      | _ =>
          let '(w, rest') := resume_connect o rest w in
          (w, t :: rest')
      end
  end.

(** What can happen to a mounted component. *)
Inductive Event : Type :=
| EffectRun (session : option User) (currentUserFlonaName : jsstring)
    (* [session] changed (or first render): the cleanup of the previous
       run sets its [isMounted] to false, then the effect calls setupChat *)
| ConnectionSettles (o : ConnOutcome)
| Settle (i : nat) (r : AwaitResult)
| Unmount (unsub_throws : Subscription -> bool) (detach_throws : bool).

Definition conn_after (o : ConnOutcome) : ConnState :=
  match o with
  | ConnConnected => StConnected
  | ConnFailed => StFailed
  | ConnTimeout => StConnecting
  end.

(** The callback of the connection promise that fires: the timeout and
    the [failed] listener log before they reject, the [connected]
    listener logs no error. It runs once, whatever the number of calls
    that await the promise. *)
Definition promise_callback (o : ConnOutcome) (w : World) : World :=
  match o with
  | ConnConnected => w
  | ConnFailed => emit [ConsoleError "Ably connection failed:"] w
  | ConnTimeout => emit [ConsoleError "Connection timeout - client state:"] w
  end.

Definition step (w : World) (e : Event) : World :=
  match e with
  | EffectRun session name =>
      let w := set_tasks (map unmounted (tasks w)) w in
      let '(w, t) := setupChat session name w in
      set_tasks (tasks w ++ option_cons t []) w
  | ConnectionSettles o =>
      match connectionPromiseRef (refs w) with
      | None => w
      | Some c =>
          let w := promise_callback o w in
          let w := set_conn c (conn_after o) (on_refs (set_connectionPromiseRef None) w) in
          let '(w, ts) := resume_connect o (tasks w) w in
          set_tasks ts w
      end
  | Settle i r =>
      match tasks w !! i with
      | None => w
      | Some t =>
          let '(w, t') := resume t r w in
          set_tasks (match t' with
                     | Some t' => <[i := t']> (tasks w)
                     | None => delete i (tasks w)
                     end) w
      end
  | Unmount unsub_throws detach_throws =>
      let w := set_tasks (map unmounted (tasks w)) w in
      let '(s, es) := teardown unsub_throws detach_throws (refs w) in
      emit es (on_refs (fun _ => s) w)
  end.

Definition run (w : World) (es : list Event) : World := fold_left step es w.

Definition is_connect (e : Effect) : bool :=
  match e with NewRealtime _ _ => true | _ => false end.

Definition is_attach (e : Effect) : bool :=
  match e with Attach _ => true | _ => false end.

Definition connection_attempts (w : World) : nat :=
  length (List.filter is_connect (log w)).

Definition room_attaches (w : World) : nat :=
  length (List.filter is_attach (log w)).

(* ===================================================================== *)
(** ** Live deliveries interleaved                                        *)
(* ===================================================================== *)

(** The view of one session: the component state and the message handlers
    suspended at their [await]. *)
Definition View : Type := ChatState * list Pending.

(** One uninterrupted piece of a message handler: a delivery runs the
    handler to its [await]; any suspended handler may resume, in any
    order, with whatever its lookup returned. *)
Inductive live_step : View -> View -> Prop :=
| live_deliver (now : Z) (ev : MessageEvent) (s s' : ChatState)
    (p : option Pending) (sent : list Effect) (ps : list Pending) :
    messageSub_begin now ev s = (s', p, sent) ->
    live_step (s, ps) (s', ps ++ option_cons p [])
| live_resume (r : FetchResult) (p : Pending) (s : ChatState)
    (ps1 ps2 : list Pending) :
    live_step (s, ps1 ++ p :: ps2) (messageSub_finish r p s, ps1 ++ ps2).

Inductive live_steps : View -> View -> Prop :=
| live_refl (v : View) : live_steps v v
| live_next (v1 v2 v3 : View) :
    live_steps v1 v2 -> live_step v2 v3 -> live_steps v1 v3.

(** The entries of the visible list that carry a given identity. *)
Definition entries_with (id : jsstring) (l : list Message.t) : list Message.t :=
  filter (fun m => Message.id m = id) l.

(** What every interleaving keeps: the history stays at the front, the
    identities shown or about to be shown are pairwise distinct, and all
    of them are in the dedup set. *)
Definition dedup_inv (hist : list Message.t) (v : View) : Prop :=
  (exists live, messages v.1 = hist ++ live)
  /\ NoDup (map Message.id (messages v.1) ++ map p_id v.2)
  /\ (forall id, id ∈ map Message.id (messages v.1) ++ map p_id v.2 ->
                 id ∈ messageIdsRef v.1).

(** The name [getFlonaName] resolves an identifier to. *)
Definition resolve_name (fetch : jsstring -> FetchResult)
    (cache : gmap jsstring jsstring) (email : jsstring) : jsstring :=
  (getFlonaName fetch cache email).1.1.

(** The operations the unmount cleanup may issue. *)
Definition is_unsubscribe (e : Effect) : bool :=
  match e with Unsubscribe _ => true | _ => false end.

Definition is_detach (e : Effect) : bool :=
  match e with Detach _ => true | _ => false end.

Definition teardown_effect (e : Effect) : Prop :=
  match e with
  | Unsubscribe _ | Detach _ | ConsoleError _ => True
  | _ => False
  end.

(* ===================================================================== *)
(** ** Runs without failure or unmount                                    *)
(* ===================================================================== *)

(** Events in which nothing fails and the component stays mounted. *)
Definition benign (e : Event) : Prop :=
  match e with
  | EffectRun _ _ => True
  | ConnectionSettles ConnConnected => True
  | Settle _ (RoomsGetOk (Some _)) => True
  | Settle _ AttachOk => True
  | Settle _ (HistoryDone _) => True
  | Settle _ EnterOk => True
  | Settle _ (MembersOk _) => True
  | _ => False
  end.

(** No activation has passed the guard yet. *)
Definition quiet (w : World) : Prop :=
  isInitializedRef (refs w) = false
  /\ log w = [] /\ tasks w = []
  /\ realtimeClientRef (refs w) = None
  /\ currentRoomRef (refs w) = None
  /\ connectionPromiseRef (refs w) = None.

(** One activation has passed the guard: one connection attempt was made,
    at most one call of [setupChat] is suspended, and the room has been
    attached exactly when that call is past [rooms.get]. *)
Definition started (w : World) : Prop :=
  isInitializedRef (refs w) = true
  /\ connection_attempts w = 1%nat
  /\ match tasks w with
     | [] => (room_attaches w <= 1)%nat
     | [t] =>
         match pc t with
         | AwaitConnect | AwaitRoomsGet =>
             room_attaches w = 0%nat /\ currentRoomRef (refs w) = None
         | _ => room_attaches w = 1%nat /\ is_Some (currentRoomRef (refs w))
         end
     | _ :: _ :: _ => False
     end.

(* ===================================================================== *)
(** ** Sample data                                                        *)
(* ===================================================================== *)

Definition alice : User :=
  mkUser (Some (js "alice@example.com")) (Some (js "Bright Hawk")).

(** A table row written at time [i] (milliseconds). *)
Definition row_at (i : nat) : MessagesRoute.ChatMessage :=
  MessagesRoute.mkRow (js "msg-" ++ js (pretty i)) (js "user-1") (js "Bright Hawk")
    (js "alice@example.com") (js "hello") (Z.of_nat i) None.

(** A table of 101 messages written at times 1 .. 101, newest first. *)
Definition table_101 : list MessagesRoute.ChatMessage :=
  rev (map row_at (seq 1 101)).

(** A component whose room is attached and shown. *)
Definition active_state : ChatState :=
  setRoom (Some 0%nat) (set_currentRoomRef (Some 0%nat) initial_state).

(* ===================================================================== *)
(** ** The message input: the typing debounce                             *)
(* ===================================================================== *)

Module TypingDebounce.

(** The timers of the page: the handles still pending and the handle
    the next [setTimeout] returns (handles are positive, hence truthy). *)
Record Timers : Type := mkTimers {
  pending : gset nat;
  next : nat
}.

Definition no_timers : Timers := mkTimers ∅ 1.

Definition setTimeout (tm : Timers) : nat * Timers :=
  (next tm, mkTimers ({[next tm]} ∪ pending tm) (S (next tm))).

Definition clearTimeout (timer : nat) (tm : Timers) : Timers :=
  mkTimers (pending tm ∖ {[timer]}) (next tm).

Definition set_isTypingRef (b : bool) (s : MessageInput.State) : MessageInput.State :=
  MessageInput.mkInput (MessageInput.text s) (MessageInput.typingTimeoutRef s) b.

(** [handleChange]; [onTyping] tells whether the prop was given. *)
Definition handleChange (onTyping : bool) (newText : jsstring)
    (s : MessageInput.State) (tm : Timers)
    : MessageInput.State * Timers * list MessageInput.Call :=
  let s := MessageInput.mkInput newText (MessageInput.typingTimeoutRef s)
                                (MessageInput.isTypingRef s) in
  if negb onTyping then (s, tm, [])
  else
    let '(s, started) :=
      if truthy newText && negb (MessageInput.isTypingRef s)
      then (set_isTypingRef true s, [MessageInput.OnTyping true])
      else (s, []) in
    let tm :=
      match MessageInput.typingTimeoutRef s with
      | Some timer => clearTimeout timer tm
      | None => tm
      end in
    if truthy newText then
      let '(timer, tm) := setTimeout tm in
      (MessageInput.mkInput (MessageInput.text s) (Some timer)
                            (MessageInput.isTypingRef s), tm, started)
    else if MessageInput.isTypingRef s
         then (set_isTypingRef false s, tm, started ++ [MessageInput.OnTyping false])
         else (s, tm, started).

(** The callback given to [setTimeout], run when a pending timer expires. *)
Definition timer_fires (timer : nat) (s : MessageInput.State) (tm : Timers)
    : MessageInput.State * Timers * list MessageInput.Call :=
  if decide (timer ∈ pending tm) then
    let tm := clearTimeout timer tm in
    if MessageInput.isTypingRef s
    then (set_isTypingRef false s, tm, [MessageInput.OnTyping false])
    else (s, tm, [])
  else (s, tm, []).

Definition apply_call (tm : Timers) (c : MessageInput.Call) : Timers :=
  match c with
  | MessageInput.ClearTimeout timer => clearTimeout timer tm
  | _ => tm
  end.

(** [handleSend] with its [clearTimeout] carried out. *)
Definition handleSend (onTyping : bool) (s : MessageInput.State) (tm : Timers)
    : MessageInput.State * Timers * list MessageInput.Call :=
  let '(s, calls) := MessageInput.handleSend onTyping s in
  (s, fold_left apply_call calls tm, calls).

(** [handleKeyPress]: Enter without Shift sends. *)
Definition handleKeyPress (onTyping : bool) (key : jsstring) (shiftKey : bool)
    (s : MessageInput.State) (tm : Timers)
    : MessageInput.State * Timers * list MessageInput.Call :=
  if bool_decide (key = js "Enter") && negb shiftKey
  then handleSend onTyping s tm
  else (s, tm, []).

(** What the user and the clock do to the input. *)
Inductive InputEvent : Type :=
| Change (newText : jsstring)
| KeyPress (key : jsstring) (shiftKey : bool)
| ClickSend
| TimerFires (timer : nat).

Definition step (onTyping : bool) (st : MessageInput.State * Timers)
    (e : InputEvent) : MessageInput.State * Timers * list MessageInput.Call :=
  match e with
  | Change newText => handleChange onTyping newText st.1 st.2
  | KeyPress key shiftKey => handleKeyPress onTyping key shiftKey st.1 st.2
  | ClickSend => handleSend onTyping st.1 st.2
  | TimerFires timer => timer_fires timer st.1 st.2
  end.

(** A run of events, with the calls made on the props, in order. *)
Fixpoint run (onTyping : bool) (st : MessageInput.State * Timers)
    (es : list InputEvent) : MessageInput.State * Timers * list MessageInput.Call :=
  match es with
  | [] => (st, [])
  | e :: rest =>
      let '(st, calls) := step onTyping st e in
      let '(st, later) := run onTyping st rest in
      (st, calls ++ later)
  end.

Definition initial : MessageInput.State * Timers :=
  (MessageInput.mkInput [] None false, no_timers).

(** The arguments of the [onTyping] calls among [calls], in order. *)
Definition typing_flags (calls : list MessageInput.Call) : list bool :=
  omap (fun c => match c with MessageInput.OnTyping b => Some b | _ => None end) calls.

(** Each flag is the opposite of the one before it, [prev] being the one
    before the first. *)
Fixpoint alternates (prev : bool) (flags : list bool) : Prop :=
  match flags with
  | [] => True
  | b :: rest => b = negb prev /\ alternates b rest
  end.

(** At most one timer is pending, the one in the slot, and a typing
    indicator that is on has its stop timer pending. *)
Definition timers_ok (onTyping : bool) (st : MessageInput.State * Timers) : Prop :=
  (forall timer, timer ∈ pending st.2 ->
                 MessageInput.typingTimeoutRef st.1 = Some timer)
  /\ (MessageInput.isTypingRef st.1 = true ->
      onTyping = true
      /\ exists timer, MessageInput.typingTimeoutRef st.1 = Some timer
                       /\ timer ∈ pending st.2).

End TypingDebounce.

(** A text with no white space at either end. *)
Definition trimmed (s : jsstring) : Prop :=
  match s with
  | [] => True
  | c :: _ => is_space c = false /\ is_space (List.last s c) = false
  end.

(* ===================================================================== *)
(** ** What the list and the bubbles render                               *)
(* ===================================================================== *)

(** [currentUserEmail={session?.user?.email || ''}] *)
Definition currentUserEmail (session : option User) : jsstring :=
  or_else (session ≫= email) [].

Module MessageList.

(** [isOwn={message.userEmail === currentUserEmail}] *)
Definition isOwn (currentUserEmail : jsstring) (message : Message.t) : bool :=
  bool_decide (Message.userEmail message = currentUserEmail).


End MessageList.


Module MessageBubble.

(** [message.reactions && Object.keys(message.reactions).length > 0] *)
Definition hasReactions (message : Message.t) : bool :=
  match Message.reactions message with
  | [] => false
  | _ :: _ => true
  end.

End MessageBubble.

(* ===================================================================== *)
(** ** The tables and the two routes that read and write them            *)
(* ===================================================================== *)

(** A row of [User], the columns the routes read. *)
Record UserRow : Type := mkUserRow {
  u_id : jsstring;
  u_email : jsstring;
  u_flona_name : option jsstring
}.

Record Db : Type := mkDb {
  users : list UserRow;
  chat_messages : list MessagesRoute.ChatMessage
}.

(** [prisma.user.findUnique({ where: { id } })] and [{ where: { email } }]. *)
Definition findUnique_id (db : Db) (id : jsstring) : option UserRow :=
  List.find (fun u => bool_decide (u_id u = id)) (users db).

Definition findUnique_email (db : Db) (e : jsstring) : option UserRow :=
  List.find (fun u => bool_decide (u_email u = e)) (users db).

(** [include: { user: { select: { flona_name: true } } }]: the row with
    its user's current [flona_name]. *)
Definition include_user (db : Db) (msg : MessagesRoute.ChatMessage)
    : MessagesRoute.ChatMessage :=
  MessagesRoute.mkRow (MessagesRoute.id msg) (MessagesRoute.user_id msg)
    (MessagesRoute.user_name msg) (MessagesRoute.user_email msg)
    (MessagesRoute.text msg) (MessagesRoute.created_at msg)
    (findUnique_id db (MessagesRoute.user_id msg) ≫= u_flona_name).

(** GET [/api/messages] on the tables. *)
Definition GET_messages (db : Db) : MessagesRoute.Response :=
  MessagesRoute.GET (Some (map (include_user db) (chat_messages db))).

Module MessagesPost.

(** [session.user], the fields the handler reads. *)
Record SessionUser : Type := mkSessionUser {
  su_id : option jsstring;
  su_email : option jsstring;
  su_name : option jsstring
}.

(** [getServerSession] throws, or gives a session with or without a user. *)
Inductive SessionResult : Type :=
| SessionThrows
| Session (user : option SessionUser).

(** [request.json()] throws (or the body is not an object), or gives an
    object whose [text] is a string or absent / null, which is what the
    client sends ([JSON.stringify({ text })]); a [text] of another JSON
    type is not modelled. *)
Inductive RequestBody : Type :=
| BodyUnreadable
| BodyObject (text : option jsstring).

(** Which of the two database calls throws. *)
Record Faults : Type := mkFaults {
  find_throws : bool;
  create_throws : bool
}.

Inductive Response : Type :=
| Json (status : Z) (message : Message.t)
| JsonError (status : Z) (error : jsstring).

Definition failed : Response := JsonError 500 (js "Failed to save message").

(** A string that is there and not empty. *)
Definition present (o : option jsstring) : option jsstring :=
  match o with
  | Some s => if truthy s then Some s else None
  | None => None
  end.

(** The POST handler. The database gives the new row its [id] and
    [created_at]: [new_id] and [now]. *)
Definition POST (session : SessionResult) (body : RequestBody) (faults : Faults)
    (new_id : jsstring) (now : Z) (db : Db) : Response * Db :=
  match session with
  | SessionThrows => (failed, db)
  | Session session_user =>
      match present (session_user ≫= su_id), present (session_user ≫= su_email) with
      | Some user_id, Some user_email =>
          match body with
          | BodyUnreadable => (failed, db)
          | BodyObject text =>
              let text := trim (or_else text []) in
              if negb (truthy text)
              then (JsonError 400 (js "Message text is required"), db)
              else if find_throws faults then (failed, db)
              else
                let user := findUnique_id db user_id in
                let flonaName :=
                  or_else (user ≫= u_flona_name)
                          (or_else (session_user ≫= su_name) (js "Anonymous")) in
                if create_throws faults then (failed, db)
                else
                  let message :=
                    MessagesRoute.mkRow new_id user_id flonaName user_email
                                        text now None in
                  (Json 200 (Message.mk (MessagesRoute.id message)
                               (MessagesRoute.text message)
                               (MessagesRoute.user_name message)
                               (MessagesRoute.user_email message)
                               (MessagesRoute.created_at message) []),
                   mkDb (users db) (chat_messages db ++ [message]))
          end
      | _, _ => (JsonError 401 (js "Unauthorized"), db)
      end
  end.

End MessagesPost.

Module FlonaNameRoute.

Inductive Response : Type :=
| Json (flonaName : option jsstring)            (* status 200 *)
| JsonError (status : Z) (error : jsstring).

(** GET [/api/user/flona-name?email=...]; [throws]: the query throws. *)
Definition GET (email : option jsstring) (throws : bool) (db : Db) : Response :=
  match MessagesPost.present email with
  | None => JsonError 400 (js "Email is required")
  | Some e =>
      if throws then JsonError 500 (js "Failed to fetch flona_name")
      else
        match findUnique_email db e with
        | None => JsonError 404 (js "User not found")
        | Some user => Json (u_flona_name user)
        end
  end.

(** The response as [getFlonaName] reads it: [response.ok] and the
    [flonaName] of the body. *)
Definition as_fetch (r : Response) : FetchResult :=
  match r with
  | Json flonaName => FetchResponse true (BodyData flonaName)
  | JsonError _ _ => FetchResponse false (BodyData None)
  end.

(** The lookup of [getFlonaName] answered by the route. The parameter
    reaches the handler as it was given to [encodeURIComponent]: encoding
    and decoding are the platform's and undo each other on a string
    without lone surrogates. *)
Definition fetch (throws : bool) (db : Db) (email : jsstring) : FetchResult :=
  as_fetch (GET (Some email) throws db).

End FlonaNameRoute.

(** The handles the component holds: none, or the four of one setup. *)
Definition subscriptions_ok (w : World) : Prop :=
  subscriptionsRef (refs w) = []
  \/ exists r u, subscriptionsRef (refs w) = four_subscriptions r u.

(** The calls in a log that register a handler of kind [k], the calls
    that cancel one, and the handles of that kind in the slot. *)
Definition registrations (k : SubKind) (l : list Effect) : nat :=
  length (List.filter (fun e => match e with
                                | Subscribe k' => bool_decide (k' = k)
                                | _ => false
                                end) l).

Definition cancellations (k : SubKind) (l : list Effect) : nat :=
  length (List.filter (fun e => match e with
                                | Unsubscribe k' => bool_decide (k' = k)
                                | _ => false
                                end) l).

Definition held (k : SubKind) (subs : list Subscription) : nat :=
  length (List.filter (fun sub => bool_decide (sub_kind sub = k)) subs).

Definition handler_free (e : Effect) : Prop :=
  match e with
  | Subscribe _ | Unsubscribe _ => False
  | _ => True
  end.

(** From [w] to [w'] the slot is untouched and no handler is registered
    or cancelled. *)
Definition same_handlers (w w' : World) : Prop :=
  subscriptionsRef (refs w') = subscriptionsRef (refs w)
  /\ exists es, log w' = log w ++ es /\ Forall handler_free es.

(** Every registration is either cancelled or held in the slot. *)
Definition handlers_inv (w : World) : Prop :=
  subscriptions_ok w
  /\ forall k, registrations k (log w)
              = (cancellations k (log w) + held k (subscriptionsRef (refs w)))%nat.

(* ===================================================================== *)
(** * Properties                                                          *)
(* ===================================================================== *)

(** ** The fallback name                                                  *)

Section Int32.

Ltac euclid := Z.to_euclidean_division_equations; lia.

Lemma toInt32_wrap32 (x : Z) : toInt32 x = wrap32 x.
Proof.
  unfold toInt32, wrap32.
  change (2 ^ 31) with 2147483648. change (2 ^ 32) with 4294967296.
  cbv zeta.
  destruct (Z.ltb_spec (x mod 4294967296) 2147483648); euclid.
Qed.

Lemma wrap32_range (x : Z) : -2147483648 <= wrap32 x < 2147483648.
Proof.
  unfold wrap32. cbv zeta.
  destruct (Z.ltb_spec (x mod 4294967296) 2147483648); euclid.
Qed.

Lemma wrap32_small (x : Z) : -2147483648 <= x < 2147483648 -> wrap32 x = x.
Proof.
  intros Hx. unfold wrap32. cbv zeta.
  destruct (Z.ltb_spec (x mod 4294967296) 2147483648); euclid.
Qed.

Lemma wrap32_congr (x y : Z) :
  x mod 4294967296 = y mod 4294967296 -> wrap32 x = wrap32 y.
Proof. unfold wrap32. intros ->. reflexivity. Qed.

Lemma wrap32_mod (x : Z) : wrap32 x mod 4294967296 = x mod 4294967296.
Proof.
  unfold wrap32. cbv zeta.
  destruct (Z.ltb_spec (x mod 4294967296) 2147483648); euclid.
Qed.

(** The loop body of the source is the step of the specification. *)
Lemma hash_step_mul31 (hash char : Z) :
  hash_step hash char = wrap32 (hash * 31 + char).
Proof.
  unfold hash_step, band, shl. cbv zeta.
  rewrite Z.land_diag, Z.shiftl_mul_pow2 by lia.
  rewrite !toInt32_wrap32.
  apply wrap32_congr.
  change (2 ^ 5) with 32.
  rewrite <- Zplus_mod_idemp_l, <- Zminus_mod_idemp_l.
  rewrite wrap32_mod.
  rewrite <- (Zmult_mod_idemp_l (wrap32 hash)), wrap32_mod, Zmult_mod_idemp_l.
  rewrite Zminus_mod_idemp_l, Zplus_mod_idemp_l.
  f_equal. lia.
Qed.

Lemma email_hash_spec (email : jsstring) : email_hash email = spec_hash email.
Proof.
  unfold email_hash, spec_hash. generalize 0.
  induction email as [| c rest IH]; intros h; simpl; [reflexivity |].
  rewrite hash_step_mul31. apply IH.
Qed.

Lemma spec_hash_range (email : jsstring) :
  -2147483648 <= spec_hash email < 2147483648.
Proof.
  unfold spec_hash.
  induction email as [| c rest IH] using rev_ind; simpl; [lia |].
  rewrite fold_left_app. simpl. apply wrap32_range.
Qed.

End Int32.

Lemma index_in_range (words : list jsstring) (i : Z) (d : jsstring) :
  0 <= i < Z.of_nat (length words) ->
  index words i = nth (Z.to_nat i) words d.
Proof.
  intros Hi. unfold index.
  destruct (Z.ltb_spec i 0); [lia |].
  apply nth_indep. lia.
Qed.

(** C7. For every identifier, [generateAnonymousName] gives the name of
    the reference algorithm of the specification (rolling hash
    [hash*31 + charCode] wrapped to signed 32 bits, adjective at
    [abs(hash) mod 10], animal at [abs(hash >> 8) mod 10], joined by a
    space), and the loop body [((hash << 5) - hash) + char] followed by
    [hash & hash] is exactly that wrapped step. *)
Theorem generateAnonymousName_reference (email : jsstring) :
  generateAnonymousName email = spec_fallback_name email
  /\ (forall hash char, hash_step hash char = wrap32 (hash * 31 + char)).
Proof.
  split; [| exact hash_step_mul31].
  unfold generateAnonymousName, spec_fallback_name, sar, rem. cbv zeta.
  rewrite email_hash_spec.
  pose proof (spec_hash_range email) as Hr.
  rewrite toInt32_wrap32, wrap32_small by exact Hr.
  change (Z.of_nat (length adjectives)) with 10.
  change (Z.of_nat (length animals)) with 10.
  rewrite !Z.rem_mod_nonneg by lia.
  rewrite (index_in_range adjectives _ []),
          (index_in_range animals _ []); [reflexivity | |].
  - change (Z.of_nat (length animals)) with 10. apply Z.mod_pos_bound. lia.
  - change (Z.of_nat (length adjectives)) with 10. apply Z.mod_pos_bound. lia.
Qed.

Example generateAnonymousName_empty :
  generateAnonymousName (js "") = js "Happy Panda".
Proof. reflexivity. Qed.

Example generateAnonymousName_sample :
  generateAnonymousName (js "alice@example.com") = spec_fallback_name (js "alice@example.com").
Proof. vm_compute. reflexivity. Qed.

(** ** The name resolver                                                  *)

Section Resolver.

Variable fetch : jsstring -> FetchResult.

Lemma name_after_lookup_unavailable (email : jsstring) (r : FetchResult) :
  store_unavailable r -> name_after_lookup email r = generateAnonymousName email.
Proof.
  destruct r as [| [|] [| [name |]]]; simpl; try reflexivity.
  intros ->. reflexivity.
Qed.

(** A cache hit answers from the cache and sends nothing. *)
Lemma getFlonaName_hit (cache : gmap jsstring jsstring) (email name : jsstring) :
  cache !! email = Some name ->
  getFlonaName fetch cache email = (name, cache, []).
Proof. intros H. unfold getFlonaName, getFlonaName_begin. rewrite H. reflexivity. Qed.

(** A miss stores the name it returns. *)
Lemma getFlonaName_miss (cache : gmap jsstring jsstring) (email : jsstring) :
  cache !! email = None ->
  exists name sent,
    getFlonaName fetch cache email = (name, <[email := name]> cache, sent).
Proof.
  intros H. unfold getFlonaName, getFlonaName_begin. rewrite H.
  destruct (lone_surrogate email); simpl; eauto.
Qed.

Lemma getFlonaName_cached_after (cache : gmap jsstring jsstring) (email : jsstring) :
  (getFlonaName fetch cache email).1.2 !! email
  = Some (getFlonaName fetch cache email).1.1.
Proof.
  destruct (cache !! email) as [name |] eqn:H.
  - rewrite (getFlonaName_hit _ _ _ H). exact H.
  - destruct (getFlonaName_miss _ _ H) as (name & sent & ->). simpl.
    apply lookup_insert_eq.
Qed.

Lemma getFlonaName_other (cache : gmap jsstring jsstring) (email other : jsstring) :
  other <> email ->
  (getFlonaName fetch cache email).1.2 !! other = cache !! other.
Proof.
  intros Hne.
  destruct (cache !! email) as [name |] eqn:H.
  - rewrite (getFlonaName_hit _ _ _ H). reflexivity.
  - destruct (getFlonaName_miss _ _ H) as (name & sent & ->). simpl.
    apply lookup_insert_ne. congruence.
Qed.

End Resolver.

(** C6. With the identity store unavailable (the lookup rejects, answers
    with a non-success status, its body does not parse, or it has no name
    for the account), [getFlonaName] on an identifier not yet cached
    returns a value (the catch arms leave nothing to propagate): the
    deterministic fallback name, which it stores in the cache; a second
    call, whatever the store then does, returns the identical name from
    the cache, sends no lookup and leaves the cache as it is. *)
Theorem getFlonaName_degrades_to_fallback
    (fetch fetch' : jsstring -> FetchResult)
    (cache : gmap jsstring jsstring) (email : jsstring) :
  cache !! email = None ->
  store_unavailable (fetch email) ->
  let fallback := generateAnonymousName email in
  let cache1 := (getFlonaName fetch cache email).1.2 in
  (getFlonaName fetch cache email).1.1 = fallback
  /\ cache1 = <[email := fallback]> cache
  /\ getFlonaName fetch' cache1 email = (fallback, cache1, []).
Proof.
  intros Hmiss Hdown fallback cache1.
  assert (H1 : (getFlonaName fetch cache email).1 = (fallback, <[email := fallback]> cache)).
  { unfold getFlonaName, getFlonaName_begin. rewrite Hmiss.
    destruct (lone_surrogate email); simpl; [reflexivity |].
    rewrite name_after_lookup_unavailable by exact Hdown. reflexivity. }
  subst cache1. rewrite H1. simpl.
  split; [reflexivity |]. split; [reflexivity |].
  apply getFlonaName_hit. apply lookup_insert_eq.
Qed.

Lemma getFlonaName_degrades_to_fallback_witness :
  let fetch := fun _ : jsstring => FetchRejects in
  let email := js "nobody@example.com" in
  (getFlonaName fetch ∅ email).1.1 = js "Quick Hawk"
  /\ getFlonaName fetch (<[email := js "Quick Hawk"]> ∅) email
     = (js "Quick Hawk", <[email := js "Quick Hawk"]> ∅, []).
Proof.
  intros fetch email.
  destruct (getFlonaName_degrades_to_fallback fetch fetch ∅ email)
    as (H1 & H2 & H3); [reflexivity | exact I |].
  split; [exact H1 |].
  rewrite H2 in H3. exact H3.
Defined.

Example generateAnonymousName_negative_hash :
  email_hash (js "carol@example.com") = -1264159250
  /\ generateAnonymousName (js "carol@example.com") = js "Happy Wolf".
Proof. vm_compute. split; reflexivity. Qed.

(** ** The typing handler                                                 *)

Lemma elem_of_new_Set (l : list jsstring) (x : jsstring) :
  x ∈ new_Set l <-> x ∈ l.
Proof.
  induction l as [| y rest IH]; simpl; [reflexivity |].
  rewrite !elem_of_cons, list_elem_of_filter, IH.
  destruct (decide (x = y)); intuition congruence.
Qed.

Lemma elem_of_delete_self (user : User) (e x : jsstring) (l : list jsstring) :
  email user = Some e -> truthy e = true ->
  x ∈ delete_self user l <-> x ∈ l /\ x <> e.
Proof.
  intros He Ht. unfold delete_self. rewrite He, Ht.
  rewrite list_elem_of_filter. tauto.
Qed.

Section Typing.

Variable fetch : jsstring -> FetchResult.

Lemma resolve_name_unfold (cache : gmap jsstring jsstring) (e : jsstring) :
  resolve_name fetch cache e
  = match cache !! e with
    | Some name => name
    | None => if lone_surrogate e then generateAnonymousName e
              else name_after_lookup e (fetch e)
    end.
Proof.
  unfold resolve_name, getFlonaName, getFlonaName_begin.
  destruct (cache !! e); [reflexivity |].
  destruct (lone_surrogate e); reflexivity.
Qed.

(** Resolving one identifier does not change what any identifier
    resolves to: a stored entry is the name the lookup gives. *)
Lemma resolve_name_stable (cache : gmap jsstring jsstring) (e other : jsstring) :
  resolve_name fetch (getFlonaName fetch cache e).1.2 other
  = resolve_name fetch cache other.
Proof.
  destruct (decide (other = e)) as [-> | Hne].
  - unfold resolve_name at 1.
    rewrite (getFlonaName_hit fetch _ _ _ (getFlonaName_cached_after fetch cache e)).
    reflexivity.
  - rewrite !resolve_name_unfold.
    rewrite (getFlonaName_other fetch cache e other Hne). reflexivity.
Qed.

Lemma resolve_all_names (emails : list jsstring) (cache : gmap jsstring jsstring) :
  (resolve_all fetch cache emails).1 = map (resolve_name fetch cache) emails.
Proof.
  revert cache. induction emails as [| e rest IH]; intros cache; [reflexivity |].
  simpl.
  destruct (getFlonaName fetch cache e) as [[name cache1] sent] eqn:Hg.
  specialize (IH cache1).
  destruct (resolve_all fetch cache1 rest) as [names cache2]. simpl in *.
  f_equal.
  - unfold resolve_name. rewrite Hg. reflexivity.
  - rewrite IH. apply map_ext. intros other.
    replace cache1 with (getFlonaName fetch cache e).1.2 by (rewrite Hg; reflexivity).
    apply resolve_name_stable.
Qed.

End Typing.

(** C8. On a typing-changed event the handler takes the event's whole
    currently-typing set, drops the local user's identifier, resolves each
    remaining identifier to a display name and stores exactly that set of
    names: a name is rendered if and only if it is the resolved name of an
    identifier of the event other than the local user's, and what was
    rendered before plays no part. *)
Theorem typingSub_excludes_self (fetch : jsstring -> FetchResult) (user : User)
    (self : jsstring) (currentlyTyping : list jsstring) (s : ChatState) :
  email user = Some self ->
  truthy self = true ->
  (forall name,
      name ∈ typingUsers (typingSub fetch user currentlyTyping s) <->
      exists id, id ∈ currentlyTyping /\ id <> self
                 /\ name = resolve_name fetch (flonaNameCacheRef s) id)
  /\ (self ∉ delete_self user (new_Set currentlyTyping))
  /\ (forall old,
        typingUsers (typingSub fetch user currentlyTyping (setTypingUsers old s))
        = typingUsers (typingSub fetch user currentlyTyping s)).
Proof.
  intros He Ht.
  assert (Hshape : forall s0,
             typingUsers (typingSub fetch user currentlyTyping s0)
             = list_to_set (map (resolve_name fetch (flonaNameCacheRef s0))
                                (delete_self user (new_Set currentlyTyping)))).
  { intros s0. unfold typingSub.
    pose proof (resolve_all_names fetch (delete_self user (new_Set currentlyTyping))
                  (flonaNameCacheRef s0)) as Hn.
    destruct (resolve_all fetch (flonaNameCacheRef s0)
                (delete_self user (new_Set currentlyTyping))) as [names cache'].
    simpl in Hn. subst names. destruct s0; reflexivity. }
  split; [| split].
  - intros name. rewrite Hshape, elem_of_list_to_set, list_elem_of_fmap.
    split.
    + intros (id & -> & Hin).
      apply (elem_of_delete_self user self id _ He Ht) in Hin.
      destruct Hin as [Hin Hne]. apply (proj1 (elem_of_new_Set _ _)) in Hin.
      exists id. auto.
    + intros (id & Hin & Hne & ->). exists id. split; [reflexivity |].
      apply (elem_of_delete_self user self id _ He Ht).
      split; [apply (proj2 (elem_of_new_Set _ _)) |]; assumption.
  - intros Hin. apply (elem_of_delete_self user self self _ He Ht) in Hin.
    destruct Hin as [_ Hne]. congruence.
  - intros old. rewrite !Hshape. destruct s; reflexivity.
Qed.

Lemma typingSub_excludes_self_witness :
  let me := js "me@x.io" in
  let bob := js "bob@example.com" in
  let user := mkUser (Some me) None in
  let fetch := fun _ : jsstring => FetchRejects in
  (me ∉ delete_self user (new_Set [bob; me]))
  /\ typingUsers (typingSub fetch user [bob; me]
                    (setTypingUsers {[js "Calm Owl"]} initial_state))
     = typingUsers (typingSub fetch user [bob; me] initial_state).
Proof.
  intros me bob user fetch.
  destruct (typingSub_excludes_self fetch user me [bob; me] initial_state
              eq_refl eq_refl) as (_ & Hself & Hold).
  split; [exact Hself | apply Hold].
Defined.

Example typingSub_echo :
  let me := js "me@x.io" in
  typingUsers (typingSub (fun _ => FetchRejects) (mkUser (Some me) None)
                 [js "bob@example.com"; me] initial_state)
  = {[ js "Quick Panda" ]}.
Proof. vm_compute. reflexivity. Qed.

(** ** The presence handler                                               *)

(** C9. On any presence-changed notification, with the room in its slot,
    the handler sends the member query and replaces the held presence list
    by what the query returns; the event itself and the list held before
    have no influence, and an empty answer leaves an empty list. *)
Theorem presence_changed_replaces (query : list PresenceMember)
    (presenceEvent : PresenceEvent) (s : ChatState) :
  is_Some (currentRoomRef s) ->
  presenceSub presenceEvent s = [PresenceGet]
  /\ onlineUsers (presence_changed query presenceEvent s) = query
  /\ (forall other_event old,
        presence_changed query other_event (setOnlineUsers old s)
        = presence_changed query presenceEvent s)
  /\ (query = [] -> onlineUsers (presence_changed query presenceEvent s) = []).
Proof.
  intros [r Hr].
  unfold presence_changed, presenceSub, presenceSub_then.
  destruct s; simpl in *. subst.
  repeat split; auto.
Qed.

Lemma presence_changed_replaces_witness :
  let alice := mkMember (js "alice@example.com") (js "Bright Hawk") in
  let left := mkPresenceEvent (js "leave") alice in
  let s := setOnlineUsers [alice] (set_currentRoomRef (Some 0%nat) initial_state) in
  onlineUsers s = [alice]
  /\ onlineUsers (presence_changed [] left s) = [].
Proof.
  intros alice left s. split; [reflexivity |].
  apply (presence_changed_replaces [] left s); [| reflexivity].
  exists 0%nat. reflexivity.
Defined.

(** ** Teardown                                                           *)

Lemma teardown_unsubscribes (unsub_throws : Subscription -> bool)
    (subs : list Subscription) :
  filter is_unsubscribe
    (flat_map (fun sub =>
                 Unsubscribe (sub_kind sub) ::
                   (if unsub_throws sub then [ConsoleError "Error unsubscribing:"] else []))
              subs)
  = map (fun sub => Unsubscribe (sub_kind sub)) subs.
Proof.
  induction subs as [| sub rest IH]; [reflexivity |].
  cbn [flat_map map]. rewrite <- IH.
  destruct (unsub_throws sub); reflexivity.
Qed.

Lemma teardown_effects_only (unsub_throws : Subscription -> bool)
    (subs : list Subscription) :
  Forall teardown_effect
    (flat_map (fun sub =>
                 Unsubscribe (sub_kind sub) ::
                   (if unsub_throws sub then [ConsoleError "Error unsubscribing:"] else []))
              subs).
Proof.
  induction subs as [| sub rest IH]; [constructor |].
  cbn [flat_map]. destruct (unsub_throws sub); repeat constructor; exact IH.
Qed.

Lemma teardown_no_detach (unsub_throws : Subscription -> bool)
    (subs : list Subscription) :
  filter is_detach
    (flat_map (fun sub =>
                 Unsubscribe (sub_kind sub) ::
                   (if unsub_throws sub then [ConsoleError "Error unsubscribing:"] else []))
              subs)
  = [].
Proof.
  induction subs as [| sub rest IH]; [reflexivity |].
  cbn [flat_map]. rewrite filter_app, IH.
  destruct (unsub_throws sub); reflexivity.
Qed.

(** With an empty dedup set no delivery is discarded. *)
Lemma messageSub_begin_fresh (now : Z) (ev : MessageEvent) (s : ChatState) :
  messageIdsRef s = ∅ ->
  exists p sent s', messageSub_begin now ev s = (s', Some p, sent).
Proof.
  intros Hempty. unfold messageSub_begin. cbv zeta. rewrite Hempty.
  destruct (decide (messageId now ev ∈ (∅ : gset jsstring))) as [Hin | _].
  - exfalso. set_solver.
  - destruct (truthy (ev_clientId ev)); [| eauto].
    destruct (getFlonaName_begin _ (ev_clientId ev)); eauto.
Qed.

(** C10. On unmount every registered subscription is cancelled (one
    [unsubscribe] per handle, in order), the room in the slot is detached
    and the slot emptied, the dedup set is cleared and the initialization
    flag reset, so that no delivery after a fresh attach is discarded as
    a duplicate; the realtime client and the chat client stay in their
    slots, the connection stays as it was, and nothing but unsubscribe,
    detach and error logging is issued. *)
Theorem unmount_frame (unsub_throws : Subscription -> bool) (detach_throws : bool)
    (w : World) :
  let w' := step w (Unmount unsub_throws detach_throws) in
  let issued := (teardown unsub_throws detach_throws (refs w)).2 in
  log w' = log w ++ issued
  /\ filter is_unsubscribe issued
     = map (fun sub => Unsubscribe (sub_kind sub)) (subscriptionsRef (refs w))
  /\ filter is_detach issued
     = match currentRoomRef (refs w) with Some r => [Detach r] | None => [] end
  /\ Forall teardown_effect issued
  /\ subscriptionsRef (refs w') = []
  /\ currentRoomRef (refs w') = None
  /\ messageIdsRef (refs w') = ∅
  /\ isInitializedRef (refs w') = false
  /\ realtimeClientRef (refs w') = realtimeClientRef (refs w)
  /\ chatClientRef (refs w') = chatClientRef (refs w)
  /\ conn w' = conn w
  /\ clients w' = clients w
  /\ (forall now ev, exists p sent s',
         messageSub_begin now ev (refs w') = (s', Some p, sent)).
Proof.
  destruct w as [s cn cl ts lg].
  destruct s as [ms rm ou tu rc cc cr subs ids ini cp cache].
  unfold step, teardown. cbn [refs tasks subscriptionsRef set_subscriptionsRef
                               currentRoomRef set_tasks].
  pose proof (teardown_unsubscribes unsub_throws subs) as Hu.
  pose proof (teardown_no_detach unsub_throws subs) as Hd.
  pose proof (teardown_effects_only unsub_throws subs) as He.
  destruct cr as [r |]; cbn -[flat_map];
    rewrite !filter_app, Hu, Hd.
  - repeat split; try reflexivity.
    + destruct detach_throws; cbn; rewrite app_nil_r; reflexivity.
    + destruct detach_throws; reflexivity.
    + apply Forall_app. split; [exact He |].
      destruct detach_throws; repeat constructor.
    + intros now ev. apply messageSub_begin_fresh. reflexivity.
  - cbn. rewrite !app_nil_r.
    repeat split; try reflexivity; [exact He |].
    intros now ev. apply messageSub_begin_fresh. reflexivity.
Qed.

(** ** History and live deliveries: one entry per identity                *)

Section Dedup.

Lemma seed_one_messages (s : ChatState) (m : Message.t) :
  messages (seed_one s m) = messages s.
Proof.
  unfold seed_one. cbv zeta.
  destruct (truthy (Message.userEmail m) && truthy (Message.userName m));
    destruct s; reflexivity.
Qed.

Lemma seed_one_ids (s : ChatState) (m : Message.t) :
  messageIdsRef (seed_one s m) = {[Message.id m]} ∪ messageIdsRef s.
Proof.
  unfold seed_one. cbv zeta.
  destruct (truthy (Message.userEmail m) && truthy (Message.userName m));
    destruct s; reflexivity.
Qed.

Lemma seed_all_messages (hist : list Message.t) (s : ChatState) :
  messages (fold_left seed_one hist s) = messages s.
Proof.
  revert s. induction hist as [| m rest IH]; intros s; simpl; [reflexivity |].
  rewrite IH. apply seed_one_messages.
Qed.

Lemma seed_all_ids (hist : list Message.t) (s : ChatState) (id : jsstring) :
  id ∈ messageIdsRef (fold_left seed_one hist s)
  <-> id ∈ map Message.id hist \/ id ∈ messageIdsRef s.
Proof.
  revert s. induction hist as [| m rest IH]; intros s; simpl.
  - rewrite elem_of_nil. tauto.
  - rewrite IH, seed_one_ids, elem_of_cons, elem_of_union, elem_of_singleton. tauto.
Qed.

(** After a successful load the list is the history and every loaded
    identity is in the dedup set. *)
Lemma loadHistory_messages (hist : list Message.t) (s : ChatState) :
  messages (loadHistory (HistoryResponse true hist) s) = hist.
Proof.
  simpl. rewrite seed_all_messages. destruct s; reflexivity.
Qed.

Lemma loadHistory_ids (hist : list Message.t) (s : ChatState) (id : jsstring) :
  id ∈ map Message.id hist ->
  id ∈ messageIdsRef (loadHistory (HistoryResponse true hist) s).
Proof. intros H. simpl. apply seed_all_ids. left. exact H. Qed.

(** The synchronous part of the handler: test and insertion together. *)
Lemma messageSub_begin_known (now : Z) (ev : MessageEvent) (s : ChatState) :
  messageId now ev ∈ messageIdsRef s ->
  messageSub_begin now ev s = (s, None, []).
Proof.
  intros Hin. unfold messageSub_begin. cbv zeta.
  destruct (decide (messageId now ev ∈ messageIdsRef s)); [reflexivity | contradiction].
Qed.

Lemma messageSub_begin_cases (now : Z) (ev : MessageEvent) (s s' : ChatState)
    (p : option Pending) (sent : list Effect) :
  messageSub_begin now ev s = (s', p, sent) ->
  messages s' = messages s
  /\ match p with
     | None => s' = s
     | Some q => (p_id q ∉ messageIdsRef s)
                 /\ messageIdsRef s' = {[p_id q]} ∪ messageIdsRef s
     end.
Proof.
  unfold messageSub_begin. cbv zeta.
  destruct (decide (messageId now ev ∈ messageIdsRef s)) as [Hin | Hnin].
  - intros [= <- <- <-]. split; reflexivity.
  - destruct (truthy (ev_clientId ev)).
    + destruct (getFlonaName_begin _ (ev_clientId ev)) as [t sent'].
      intros [= <- <- <-]. destruct s; simpl in *. auto.
    + intros [= <- <- <-]. destruct s; simpl in *. auto.
Qed.

Lemma messageSub_finish_cases (r : FetchResult) (p : Pending) (s : ChatState) :
  exists m,
    Message.id m = p_id p
    /\ messages (messageSub_finish r p s) = messages s ++ [m]
    /\ messageIdsRef (messageSub_finish r p s) = messageIdsRef s.
Proof.
  unfold messageSub_finish. destruct s.
  destruct (p_name p) as [t |].
  - destruct (getFlonaName_finish t r _) as [name cache].
    eexists. simpl. split; [| split; reflexivity]. reflexivity.
  - eexists. simpl. split; [| split; reflexivity]. reflexivity.
Qed.

Lemma dedup_inv_step (hist : list Message.t) (v v' : View) :
  dedup_inv hist v -> live_step v v' -> dedup_inv hist v'.
Proof.
  intros (Hfront & Hnd & Hsub) Hstep.
  destruct Hstep as [now ev s s' p sent ps Hb | r p s ps1 ps2]; simpl in *.
  - apply messageSub_begin_cases in Hb. destruct Hb as [Hm Hp].
    destruct p as [q |].
    + destruct Hp as [Hfresh Hids]. unfold dedup_inv. simpl.
      rewrite Hm, Hids. split; [exact Hfront |].
      rewrite map_app. simpl. rewrite app_assoc.
      split.
      * apply NoDup_app. split; [exact Hnd |]. split.
        -- intros id Hin Hq. apply list_elem_of_singleton in Hq. subst id.
           apply Hfresh, Hsub, Hin.
        -- apply NoDup_singleton.
      * intros id Hin. apply elem_of_app in Hin. destruct Hin as [Hin | Hin].
        -- apply elem_of_union. right. apply Hsub, Hin.
        -- apply list_elem_of_singleton in Hin. subst id.
           apply elem_of_union. left. apply elem_of_singleton. reflexivity.
    + subst s'. unfold dedup_inv. simpl. rewrite app_nil_r.
      split; [exact Hfront |]. split; assumption.
  - destruct (messageSub_finish_cases r p s) as (m & Hid & Hm & Hids).
    unfold dedup_inv. simpl. rewrite Hm, Hids.
    assert (Hperm : map Message.id (messages s ++ [m]) ++ map p_id (ps1 ++ ps2)
                    ≡ₚ map Message.id (messages s) ++ map p_id (ps1 ++ p :: ps2)).
    { rewrite !map_app. simpl. rewrite Hid.
      rewrite <- !app_assoc. apply Permutation_app_head.
      simpl. rewrite Permutation_middle. reflexivity. }
    split; [| split].
    + destruct Hfront as [live Hl]. exists (live ++ [m]).
      rewrite Hl, app_assoc. reflexivity.
    + rewrite Hperm. exact Hnd.
    + intros id Hin. apply Hsub. rewrite <- Hperm. exact Hin.
Qed.

Lemma dedup_inv_steps (hist : list Message.t) (v v' : View) :
  dedup_inv hist v -> live_steps v v' -> dedup_inv hist v'.
Proof.
  intros Hinv Hsteps. induction Hsteps as [v | v1 v2 v3 _ IH Hstep].
  - exact Hinv.
  - eapply dedup_inv_step; [apply IH, Hinv | exact Hstep].
Qed.

Lemma dedup_inv_loaded (hist : list Message.t) (s : ChatState) :
  NoDup (map Message.id hist) ->
  dedup_inv hist (loadHistory (HistoryResponse true hist) s, []).
Proof.
  intros Hnd. unfold dedup_inv. cbn [fst snd map].
  rewrite loadHistory_messages, app_nil_r.
  split; [exists []; rewrite app_nil_r; reflexivity |].
  split; [exact Hnd |].
  intros id Hin. apply loadHistory_ids, Hin.
Qed.

Lemma entries_with_absent (l : list Message.t) (id : jsstring) :
  id ∉ map Message.id l -> entries_with id l = [].
Proof.
  unfold entries_with. induction l as [| x rest IH]; intros Hnin; [reflexivity |].
  simpl in Hnin. apply not_elem_of_cons in Hnin. destruct Hnin as [Hne Hnin].
  rewrite filter_cons.
  destruct (decide (Message.id x = id)); [congruence | apply IH, Hnin].
Qed.

Lemma one_entry_per_id (l : list Message.t) (m : Message.t) :
  NoDup (map Message.id l) -> m ∈ l ->
  length (entries_with (Message.id m) l) = 1%nat.
Proof.
  induction l as [| x rest IH]; intros Hnd Hin.
  - apply elem_of_nil in Hin. contradiction.
  - simpl in Hnd. apply NoDup_cons in Hnd. destruct Hnd as [Hx Hnd].
    unfold entries_with. rewrite filter_cons.
    destruct (decide (Message.id x = Message.id m)) as [Heq | Hne].
    + fold (entries_with (Message.id m) rest).
      rewrite entries_with_absent by (rewrite <- Heq; exact Hx). reflexivity.
    + apply elem_of_cons in Hin. destruct Hin as [-> | Hin]; [congruence |].
      apply IH; assumption.
Qed.

End Dedup.

(** What the dedup set does achieve. When a history load with pairwise
    distinct identities completes with no message handler suspended,
    then whatever live deliveries follow and however their handlers
    interleave (each handler tests the dedup set and inserts into it in
    one uninterrupted piece), the visible list never shows an identity
    twice, every loaded message is shown exactly once, and a live event
    whose identity was loaded is discarded with the state, hence the
    list, left as it is. With the history [m1, m2] and a live event
    carrying the identity of m1 the list keeps its two entries. *)
Theorem history_then_live_one_entry (hist : list Message.t) (s : ChatState)
    (v : View) :
  NoDup (map Message.id hist) ->
  live_steps (loadHistory (HistoryResponse true hist) s, []) v ->
  NoDup (map Message.id (messages v.1))
  /\ (forall m, m ∈ hist ->
                length (entries_with (Message.id m) (messages v.1)) = 1%nat)
  /\ (forall fetch now ev,
         messageId now ev ∈ map Message.id hist ->
         messageSub_begin now ev v.1 = (v.1, None, [])
         /\ messageSub fetch now ev v.1 = v.1).
Proof.
  intros Hnd Hsteps.
  pose proof (dedup_inv_steps hist _ _ (dedup_inv_loaded hist s Hnd) Hsteps)
    as (Hfront & Hall & Hsub).
  assert (Hshown : NoDup (map Message.id (messages v.1)))
    by (apply NoDup_app in Hall; tauto).
  destruct Hfront as [live Hlive].
  split; [exact Hshown |]. split.
  - intros m Hin. apply one_entry_per_id; [exact Hshown |].
    rewrite Hlive. apply elem_of_app. left. exact Hin.
  - intros fetch now ev Hin.
    assert (Hknown : messageId now ev ∈ messageIdsRef v.1).
    { apply Hsub, elem_of_app. left. rewrite Hlive, map_app.
      apply elem_of_app. left. exact Hin. }
    unfold messageSub. rewrite (messageSub_begin_known _ _ _ Hknown).
    split; reflexivity.
Qed.

Lemma history_then_live_one_entry_witness :
  let m1 := Message.mk (js "m1") (js "hello") (js "Bright Hawk")
                       (js "alice@example.com") 1000 [] in
  let m2 := Message.mk (js "m2") (js "hi") (js "Quick Panda")
                       (js "bob@example.com") 2000 [] in
  let s1 := loadHistory (HistoryResponse true [m1; m2]) initial_state in
  let ev := mkEvent (js "m1") (js "alice@example.com") (js "hello") 1000 in
  messages (messageSub (fun _ => FetchRejects) 3000 ev s1) = [m1; m2]
  /\ length (messages (messageSub (fun _ => FetchRejects) 3000 ev s1)) = 2%nat.
Proof.
  intros m1 m2 s1 ev.
  assert (Hnd : NoDup (map Message.id [m1; m2]))
    by (apply (bool_decide_unpack _); vm_compute; exact I).
  destruct (history_then_live_one_entry [m1; m2] initial_state (s1, []) Hnd
              (live_refl _)) as (_ & _ & Hdrop).
  destruct (Hdrop (fun _ => FetchRejects) 3000 ev) as [_ Hsame].
  - apply (bool_decide_unpack _). vm_compute. exact I.
  - simpl in Hsame. rewrite Hsame. split; reflexivity.
Defined.

(** A new identity is appended once; its redelivery is discarded. *)
Example live_then_redelivery :
  let m1 := Message.mk (js "m1") (js "hello") (js "Bright Hawk")
                       (js "alice@example.com") 1000 [] in
  let s1 := loadHistory (HistoryResponse true [m1]) initial_state in
  let ev := mkEvent (js "s-7") (js "bob@example.com") (js "yo") 1500 in
  let fetch := fun _ : jsstring => FetchRejects in
  map Message.id (messages (messageSub fetch 0 ev (messageSub fetch 0 ev s1)))
  = [js "m1"; js "s-7"].
Proof. vm_compute. reflexivity. Qed.

(** C1 (the code differs). A message delivered both by the history
    load and by the live stream does not always collapse to one entry.
    First: [sendMessage] hands the store and the channel the text and
    nothing else, so the row gets the identity the store gives it and
    the live event the serial the channel gives it; the history entry
    and the live event of one and the same message (same author, text
    and time) carry different identities, the dedup set does not match
    them and the message is shown twice. Second, even with equal
    identities: when [presence.enter] rejects, the flag is reset and the
    handlers stay registered; the next activation loads the history
    again, and a live event handled while that load is on its way is
    suspended at its name lookup with its identity in the set, the load
    then puts the same message in the list, and the resumed handler
    appends it a second time. *)
Theorem history_and_live_shown_twice :
  let fetch := fun _ : jsstring => FetchRejects in
  let text := js "hello" in
  let author := js "alice@example.com" in
  (* the same message by both routes, each with the identity of its route *)
  let row := MessagesRoute.mkRow (js "msg-1") (js "user-1") (js "Bright Hawk")
               author text 1000 None in
  let history := MessagesRoute.body_of (MessagesRoute.GET (Some [row])) in
  let live := mkEvent (js "01-abc") author text 1000 in
  let s1 := loadHistory (HistoryResponse true history) active_state in
  let s2 := messageSub fetch 2000 live s1 in
  (* a reload of the history while a handler is suspended *)
  let activate := EffectRun (Some alice) (js "Bright Hawk") in
  let m1 := Message.mk (js "m1") text (js "Bright Hawk") author 1000 [] in
  let ev := mkEvent (js "m1") author text 1000 in
  let w := run initial_world
             [activate; ConnectionSettles ConnConnected;
              Settle 0 (RoomsGetOk (Some 7%nat)); Settle 0 AttachOk;
              Settle 0 (HistoryDone (HistoryResponse true []));
              Settle 0 Rejected; activate] in
  let delivered := messageSub_begin 1500 ev (refs w) in
  let w' := step (on_refs (fun _ => delivered.1.1) w)
              (Settle 0 (HistoryDone (HistoryResponse true [m1]))) in
  sendMessage active_state (Some alice) text (PersistResponse true true) PublishOk
  = [PersistPOST text; Publish text]
  /\ map Message.id (messages s2) = [js "msg-1"; js "01-abc"]
  /\ map (fun m => (Message.userEmail m, Message.text m, Message.timestamp m))
         (messages s2)
     = [(author, text, 1000); (author, text, 1000)]
  /\ subscriptionsRef (refs w) = four_subscriptions 7 alice
  /\ tasks w = [mkTask AwaitHistory true 0 alice (js "Bright Hawk")]
  /\ match delivered.1.2 with
     | None => False
     | Some p =>
         forall r,
           map Message.id (messages (messageSub_finish r p (refs w')))
           = [js "m1"; js "m1"]
           /\ length (entries_with (js "m1")
                        (messages (messageSub_finish r p (refs w')))) = 2%nat
     end.
Proof.
  cbv zeta.
  split; [reflexivity |].
  split; [vm_compute; reflexivity |].
  split; [vm_compute; reflexivity |].
  split; [vm_compute; reflexivity |].
  split; [vm_compute; reflexivity |].
  match goal with
  | |- match ?d with Some _ => _ | None => _ end =>
      let d' := eval vm_compute in d in
      change d with d'
  end.
  cbv beta iota.
  intros r.
  match goal with
  | |- context [refs ?x] =>
      let x' := eval vm_compute in (refs x) in
      change (refs x) with x'
  end.
  destruct r as [| ok [| [name |]]]; try destruct ok;
    split; vm_compute; reflexivity.
Qed.

(** ** The history fetch                                                  *)

Section History.

Import MessagesRoute.

Lemma insert_asc_elem (r x : ChatMessage) (rows : list ChatMessage) :
  In x (insert_asc r rows) <-> x = r \/ In x rows.
Proof.
  induction rows as [| r' rest IH]; simpl; [intuition congruence |].
  destruct (created_at r <=? created_at r'); simpl; [intuition congruence |].
  rewrite IH. intuition congruence.
Qed.

Lemma insert_asc_sorted (r : ChatMessage) (rows : list ChatMessage) :
  StronglySorted older_eq rows -> StronglySorted older_eq (insert_asc r rows).
Proof.
  induction 1 as [| r' rest Hs IH Hall]; simpl.
  - repeat constructor.
  - destruct (Z.leb_spec (created_at r) (created_at r')) as [Hle | Hgt].
    + constructor; [constructor; assumption |].
      constructor; [unfold older_eq; lia |].
      eapply Forall_impl; [exact Hall |].
      intros a Ha. unfold older_eq in *. lia.
    + constructor; [exact IH |].
      apply Forall_forall. intros x Hx.
      apply list_elem_of_In, insert_asc_elem in Hx. destruct Hx as [-> | Hx].
      * unfold older_eq. lia.
      * rewrite Forall_forall in Hall. apply Hall, list_elem_of_In, Hx.
Qed.

Lemma orderBy_sorted (rows : list ChatMessage) :
  StronglySorted older_eq (orderBy_created_at_asc rows).
Proof.
  induction rows as [| r rest IH]; simpl; [constructor |].
  apply insert_asc_sorted, IH.
Qed.

Lemma orderBy_elem (rows : list ChatMessage) (x : ChatMessage) :
  In x (orderBy_created_at_asc rows) <-> In x rows.
Proof.
  induction rows as [| r rest IH]; simpl; [tauto |].
  rewrite insert_asc_elem, IH. intuition congruence.
Qed.

Lemma sorted_app_le (l1 l2 : list ChatMessage) :
  StronglySorted older_eq (l1 ++ l2) ->
  forall a b, In a l1 -> In b l2 -> created_at a <= created_at b.
Proof.
  induction l1 as [| x rest IH]; simpl; intros Hs a b Ha Hb; [contradiction |].
  apply StronglySorted_inv in Hs. destruct Hs as [Hs Hall].
  destruct Ha as [<- | Ha].
  - rewrite Forall_forall in Hall. apply Hall, list_elem_of_In, in_or_app.
    right. exact Hb.
  - eapply IH; eassumption.
Qed.

(** What the query keeps is the oldest part of the table: every row it
    leaves out is a row of the table at least as new as every row it
    returns. *)
Lemma findMany_keeps_oldest (rows : list ChatMessage) (kept left_out : ChatMessage) :
  In kept (findMany rows) ->
  In left_out (skipn 100 (orderBy_created_at_asc rows)) ->
  In left_out rows /\ created_at kept <= created_at left_out.
Proof.
  intros Hk Hl. split.
  - apply orderBy_elem.
    rewrite <- (firstn_skipn 100 (orderBy_created_at_asc rows)).
    apply in_or_app. right. exact Hl.
  - unfold findMany in Hk.
    eapply (sorted_app_le _ _); [| exact Hk | exact Hl].
    rewrite firstn_skipn. apply orderBy_sorted.
Qed.

End History.

(** C2 (the code differs). On a table of 101 messages written at times
    1 .. 101 the handler answers with the 100 messages written at times
    1 .. 100, oldest first: the newest message, the one written at time
    101, is not among them, and the oldest one is. *)
Theorem GET_returns_oldest_100 :
  let loaded := MessagesRoute.body_of (MessagesRoute.GET (Some table_101)) in
  map Message.timestamp loaded = map Z.of_nat (seq 1 100)
  /\ length table_101 = 101%nat
  /\ ~ In 101 (map Message.timestamp loaded)
  /\ In 1 (map Message.timestamp loaded).
Proof.
  assert (H : map Message.timestamp
                (MessagesRoute.body_of (MessagesRoute.GET (Some table_101)))
              = map Z.of_nat (seq 1 100)) by (vm_compute; reflexivity).
  cbv zeta. rewrite H.
  split; [reflexivity |]. split; [reflexivity |]. split.
  - intros Hin. apply in_map_iff in Hin. destruct Hin as (n & Hn & Hseq).
    apply in_seq in Hseq. lia.
  - apply in_map_iff. exists 1%nat. split; [reflexivity |]. apply in_seq. lia.
Qed.

(** ** Sending                                                            *)

Section Send.

Lemma handleSend_nonblank (onTyping : bool) (input : MessageInput.State) :
  truthy (trim (MessageInput.text input)) = true ->
  MessageInput.text (MessageInput.handleSend onTyping input).1 = []
  /\ exists rest,
       (MessageInput.handleSend onTyping input).2
       = MessageInput.OnSend (trim (MessageInput.text input)) :: rest.
Proof.
  intros Ht. unfold MessageInput.handleSend. rewrite Ht. cbn.
  destruct (MessageInput.isTypingRef input && onTyping); cbn; eauto.
Qed.

Lemma handleSend_blank (onTyping : bool) (input : MessageInput.State) :
  truthy (trim (MessageInput.text input)) = false ->
  MessageInput.handleSend onTyping input = (input, []).
Proof. intros Ht. unfold MessageInput.handleSend. rewrite Ht. reflexivity. Qed.

(** With a room and a session the request to the store comes first. *)
Lemma sendMessage_persists_first (s : ChatState) (session : option User)
    (text : jsstring) (persist : PersistResult) (publish : PublishResult) :
  is_Some (room s) -> is_Some session ->
  exists rest,
    sendMessage s session text persist publish = PersistPOST text :: rest
    /\ ~ In (PersistPOST text) rest.
Proof.
  intros [r Hr] [u ->]. unfold sendMessage. rewrite Hr.
  eexists. split; [reflexivity |].
  unfold publish_part, send_catch.
  destruct persist as [| [|] [|]], publish; simpl; intuition discriminate.
Qed.

(** A non-success answer of the store whose body parses is logged and
    the publish goes ahead. *)
Lemma sendMessage_tolerates_status (s : ChatState) (session : option User)
    (text : jsstring) (publish : PublishResult) :
  is_Some (room s) -> is_Some session ->
  sendMessage s session text (PersistResponse false true) publish
  = PersistPOST text
      :: ConsoleError "Failed to save message to database:"
      :: publish_part text publish.
Proof. intros [r Hr] [u ->]. unfold sendMessage. rewrite Hr. reflexivity. Qed.

(** Whenever the publish fails, or is never reached, the alert is raised. *)
Lemma sendMessage_alerts (s : ChatState) (session : option User)
    (text : jsstring) (persist : PersistResult) :
  is_Some (room s) -> is_Some session ->
  In (Alert "Failed to send message. Please try again.")
     (sendMessage s session text persist PublishRejects).
Proof.
  intros [r Hr] [u ->]. unfold sendMessage. rewrite Hr.
  unfold publish_part, send_catch.
  destruct persist as [| [|] [|]]; simpl; tauto.
Qed.

End Send.

(** The two parts of a call make up the call. *)
Lemma run_call_split (s : ChatState) (session : option User)
    (persist : PersistResult) (publish : PublishResult) (c : MessageInput.Call) :
  run_call s session persist publish c
  = call_begin s session c ++ call_resume s session persist publish c.
Proof.
  destruct c as [text | b' | timer]; cbn;
    [| rewrite app_nil_r; reflexivity | reflexivity].
  unfold sendMessage, sendMessage_begin.
  destruct (room s), session; reflexivity.
Qed.

(** The operations of a press are those of its calls. *)
Lemma press_send_effects (input : MessageInput.State) (s : ChatState)
    (session : option User) (persist : PersistResult) (publish : PublishResult)
    (e : Effect) :
  In e (press_send input s session persist publish).2
  <-> exists c, In c (MessageInput.handleSend true input).2
                /\ In e (run_call s session persist publish c).
Proof.
  unfold press_send.
  destruct (MessageInput.handleSend true input) as [input' calls]. cbn [snd].
  rewrite in_app_iff, !in_flat_map. split.
  - intros [(c & Hc & He) | (c & Hc & He)]; exists c; (split; [exact Hc |]);
      rewrite run_call_split; apply in_or_app; auto.
  - intros (c & Hc & He). rewrite run_call_split in He.
    apply in_app_or in He. destruct He as [He | He]; [left | right]; eauto.
Qed.

(** During the click nothing is published and no alert is raised. *)
Lemma call_begin_early (s : ChatState) (session : option User)
    (c : MessageInput.Call) (e : Effect) :
  In e (call_begin s session c) ->
  match e with Publish _ | Alert _ => False | _ => True end.
Proof.
  destruct c as [text | b' | timer]; cbn.
  - unfold sendMessage_begin. destruct (room s), session; cbn;
      intros [<- | []]; exact I.
  - unfold handleTyping. destruct (room s), b'; cbn;
      try intros [<- | []]; try intros []; exact I.
  - intros [].
Qed.

(** C3, as the code has it. For a send of a non-blank text the input is
    emptied by the click handler itself: the state after the click, and
    the operations issued during it, do not depend on how the store and
    the channel answer, and neither the publish nor an alert is among
    those operations, so the clearing comes before the outcome of the
    persistence and publish steps and whatever that outcome is. What
    follows the click comes after the clearing; with a room and a
    session, a failed publish raises the alert there. *)
Theorem press_send_clears_input (input : MessageInput.State) (s : ChatState)
    (session : option User) (persist : PersistResult) (publish : PublishResult) :
  truthy (trim (MessageInput.text input)) = true ->
  exists after,
    MessageInput.text (click_send input s session).1 = []
    /\ (forall persist' publish',
          (press_send input s session persist' publish').1
          = (click_send input s session).1)
    /\ (press_send input s session persist publish).2
       = (click_send input s session).2 ++ after
    /\ Forall (fun e => match e with Publish _ | Alert _ => False | _ => True end)
              (click_send input s session).2
    /\ (is_Some (room s) -> is_Some session -> publish = PublishRejects ->
        In (Alert "Failed to send message. Please try again.") after).
Proof.
  intros Ht.
  destruct (handleSend_nonblank true input Ht) as [Hclear [rest Hcalls]].
  unfold press_send, click_send.
  destruct (MessageInput.handleSend true input) as [input' calls] eqn:Hh.
  cbn [fst snd] in *. subst calls.
  exists (flat_map (call_resume s session persist publish)
            (MessageInput.OnSend (trim (MessageInput.text input)) :: rest)).
  split; [exact Hclear |]. split; [reflexivity |]. split; [reflexivity |].
  split.
  - apply List.Forall_forall. intros e He. apply in_flat_map in He.
    destruct He as (c & _ & He). exact (call_begin_early s session c e He).
  - intros [r Hr] [u ->] ->. cbn [flat_map call_resume].
    apply in_or_app. left. unfold sendMessage_begin. rewrite Hr. cbn [snd].
    unfold sendMessage_resume, publish_part, send_catch.
    destruct persist as [| [|] [|]]; simpl; tauto.
Qed.

Lemma press_send_clears_input_witness :
  let input := (TypingDebounce.run true TypingDebounce.initial
                  [TypingDebounce.Change (js "  hello ")]).1.1 in
  MessageInput.text (click_send input active_state (Some alice)).1 = []
  /\ (click_send input active_state (Some alice)).2
     = [PersistPOST (js "hello"); TypingStop]
  /\ (press_send input active_state (Some alice) (PersistResponse true true)
        PublishRejects).2
     = [PersistPOST (js "hello"); TypingStop; Publish (js "hello");
        ConsoleError "Failed to send message:";
        Alert "Failed to send message. Please try again."].
Proof.
  intros input.
  destruct (press_send_clears_input input active_state (Some alice)
              (PersistResponse true true) PublishRejects)
    as (after & Hclear & _ & _ & _ & _); [reflexivity |].
  split; [exact Hclear | split; reflexivity].
Defined.

(** C3, as stated, fails. The user types "hello" (the input then holds
    the text, a pending typing timer and the typing flag) and presses
    send; the store accepts the message and the publish fails. The alert
    is raised, and the input is empty, not preserved: it was emptied
    during the click, before the publish was even issued. *)
Lemma publish_failure_input_not_preserved :
  let input := MessageInput.mkInput (js "hello") (Some 1%nat) true in
  let after := press_send input active_state (Some alice)
                 (PersistResponse true true) PublishRejects in
  (TypingDebounce.run true TypingDebounce.initial
     [TypingDebounce.Change (js "hello")]).1.1 = input
  /\ after.2 = [PersistPOST (js "hello"); TypingStop; Publish (js "hello");
                ConsoleError "Failed to send message:";
                Alert "Failed to send message. Please try again."]
  /\ MessageInput.text after.1 = []
  /\ MessageInput.text after.1 <> MessageInput.text input
  /\ MessageInput.text (click_send input active_state (Some alice)).1 = [].
Proof.
  cbv zeta.
  split; [vm_compute; reflexivity |].
  split; [reflexivity |]. split; [reflexivity |].
  split; [discriminate | reflexivity].
Qed.

(** C4 (the code differs). With the room attached, a send whose request
    to the store rejects (network error) is aborted: the message is not
    published although the publish would have succeeded, and the user is
    alerted; likewise when the store answers with a non-success status and
    a body that does not parse. *)
Theorem sendMessage_persist_throw_aborts :
  sendMessage active_state (Some alice) (js "hello") PersistRejects PublishOk
  = [PersistPOST (js "hello");
     ConsoleError "Failed to send message:";
     Alert "Failed to send message. Please try again."]
  /\ ~ In (Publish (js "hello"))
          (sendMessage active_state (Some alice) (js "hello") PersistRejects PublishOk)
  /\ ~ In (Publish (js "hello"))
          (sendMessage active_state (Some alice) (js "hello")
             (PersistResponse false false) PublishOk)
  /\ In (Publish (js "hello"))
        (sendMessage active_state (Some alice) (js "hello")
           (PersistResponse false true) PublishOk).
Proof.
  split; [reflexivity |].
  repeat split; simpl; intuition discriminate.
Qed.

(** ** Activation                                                         *)

Section Activation.

(** The guard: once the flag is set, a further call of [setupChat]
    returns at its first line. *)
Lemma setupChat_guard (session : option User) (name : jsstring) (w : World) :
  isInitializedRef (refs w) = true ->
  setupChat session name w = (w, None).
Proof. intros H. unfold setupChat. rewrite H. reflexivity. Qed.

(** A re-run of the effect while the flag is set issues no operation
    and touches no slot; what it does is the cleanup of the run before:
    the suspended calls see [isMounted] false from then on. *)
Lemma effect_rerun_initialized (session : option User) (name : jsstring)
    (w : World) :
  isInitializedRef (refs w) = true ->
  step w (EffectRun session name)
  = mkWorld (refs w) (conn w) (clients w) (map unmounted (tasks w)) (log w).
Proof.
  intros H. unfold step.
  rewrite setupChat_guard by (destruct w; exact H).
  destruct w; unfold set_tasks; simpl. rewrite app_nil_r. reflexivity.
Qed.

(** A first activation on a fresh component makes one connection
    attempt and suspends on the connection promise. *)
Lemma first_activation (user : User) (name : jsstring) :
  let w := step initial_world (EffectRun (Some user) name) in
  log w = [NewRealtime 0 (email user)]
  /\ tasks w = [mkTask AwaitConnect true 0 user name]
  /\ isInitializedRef (refs w) = true
  /\ connectionPromiseRef (refs w) = Some 0%nat.
Proof. cbv zeta. repeat split. Qed.

(** An unmounted call that resumes after the connection returns at
    [if (!isMounted) return]: no chat client, no room, flag untouched. *)
Lemma seg_connected_unmounted (t : Task) (w : World) :
  isMounted t = false -> seg_connected t w = (w, None).
Proof. intros H. unfold seg_connected. rewrite H. reflexivity. Qed.

End Activation.

Section Counts.

Lemma loadHistory_frame (h : HistoryResult) (s : ChatState) :
  currentRoomRef (loadHistory h s) = currentRoomRef s
  /\ isInitializedRef (loadHistory h s) = isInitializedRef s
  /\ subscriptionsRef (loadHistory h s) = subscriptionsRef s.
Proof.
  destruct h as [| [|] hist]; simpl; auto.
  assert (H : forall l s0,
             currentRoomRef (fold_left seed_one l s0) = currentRoomRef s0
             /\ isInitializedRef (fold_left seed_one l s0) = isInitializedRef s0
             /\ subscriptionsRef (fold_left seed_one l s0) = subscriptionsRef s0).
  { induction l as [| m rest IH]; intros s0; simpl; [auto |].
    destruct (IH (seed_one s0 m)) as (-> & -> & ->).
    unfold seed_one. cbv zeta.
    destruct (truthy (Message.userEmail m) && truthy (Message.userName m));
      destruct s0; simpl; auto. }
  destruct (H hist (setMessages hist s)) as (-> & -> & ->).
  destruct s; simpl; auto.
Qed.

Lemma attempts_emit (es : list Effect) (w : World) :
  connection_attempts (emit es w)
  = (connection_attempts w + length (List.filter is_connect es))%nat.
Proof.
  unfold connection_attempts, emit. simpl.
  rewrite List.filter_app, length_app. reflexivity.
Qed.

Lemma attaches_emit (es : list Effect) (w : World) :
  room_attaches (emit es w)
  = (room_attaches w + length (List.filter is_attach es))%nat.
Proof.
  unfold room_attaches, emit. simpl.
  rewrite List.filter_app, length_app. reflexivity.
Qed.

Lemma step_quiet (w : World) (e : Event) :
  benign e -> quiet w -> quiet (step w e) \/ started (step w e).
Proof.
  intros Hb (Hflag & Hlog & Htasks & Hclient & Hroom & Hpromise).
  destruct w as [s cn cl ts lg]. destruct s. simpl in *. subst.
  destruct e as [session name | o | i r | u d]; simpl in Hb; try contradiction.
  - destruct session as [user |]; [right | left];
      unfold quiet, started; simpl; auto 10.
  - left. unfold quiet. simpl. auto 10.
  - left. unfold quiet. simpl. auto 10.
Qed.

Ltac count_log :=
  unfold connection_attempts, room_attaches in *; cbn [log] in *;
  rewrite ?List.filter_app, ?length_app; cbn; try lia.

Lemma seg_subscribe_room (t : Task) (w : World) (r : nat) :
  currentRoomRef (refs w) = Some r ->
  exists w',
    seg_subscribe t w = (w', Some (at_pc AwaitPresenceEnter t))
    /\ isInitializedRef (refs w') = isInitializedRef (refs w)
    /\ currentRoomRef (refs w') = Some r
    /\ tasks w' = tasks w
    /\ connection_attempts w' = connection_attempts w
    /\ room_attaches w' = room_attaches w.
Proof.
  intros Hr. unfold seg_subscribe. rewrite Hr.
  destruct w as [s cn cl ts lg]. destruct s. cbn in *. subst.
  destruct subscriptionsRef0; eexists; (split; [reflexivity |]); cbn;
    repeat split; count_log.
Qed.

Lemma step_started (w : World) (e : Event) :
  benign e -> started w -> started (step w e).
Proof.
  intros Hb (Hflag & Hone & Hts).
  destruct e as [session name | o | i r | u d]; simpl in Hb; try contradiction.
  - rewrite effect_rerun_initialized by exact Hflag.
    unfold started. cbn [refs tasks]. split; [exact Hflag |].
    split; [exact Hone |].
    destruct (tasks w) as [| t [| t2 ts]]; simpl; [exact Hts | | contradiction].
    destruct t as [p m c u n]; exact Hts.
  - destruct o; try contradiction.
    destruct w as [s cn cl ts lg]. destruct s. cbn in Hflag, Hts. subst.
    unfold step. cbn [refs connectionPromiseRef].
    destruct connectionPromiseRef0 as [c |]; [| unfold started; auto].
    destruct ts as [| t [| t2 ts]]; [| | contradiction].
    + unfold started. cbn. auto.
    + destruct t as [p m c0 u n]. destruct p; cbn in Hts |- *.
      * destruct Hts as [Hzero Hroom]. subst.
        unfold seg_connected. cbn.
        destruct m; cbn.
        -- destruct chatClientRef0; cbn; unfold started; cbn;
             (split; [reflexivity |]); (split; [count_log |]);
             (split; [count_log | reflexivity]).
        -- unfold started. cbn. split; [reflexivity |]. split; [exact Hone |].
           count_log.
      * unfold started. cbn. auto.
      * unfold started. cbn. auto.
      * unfold started. cbn. auto.
      * unfold started. cbn. auto.
      * unfold started. cbn. auto.
  - destruct w as [s cn cl ts lg]. cbn in Hflag, Hts.
    unfold step. cbn [tasks].
    destruct ts as [| t [| t2 ts]]; [| | contradiction].
    + rewrite lookup_nil. unfold started; auto.
    + destruct i as [| i]; [| unfold started; cbn; auto].
      destruct t as [p m c0 u n].
      destruct p, r as [| [room |] | | h | |]; cbn in Hb; try contradiction;
        try (unfold started; cbn; auto; fail).
      * (* rooms.get resolved *)
        destruct Hts as [Hzero Hroom]. destruct s; cbn in *; subst.
        unfold started. cbn. split; [reflexivity |].
        split; [count_log |]. split; [count_log | eauto].
      * (* attach resolved *)
        destruct Hts as [Hatt Hroom]. destruct s; cbn in *; subst.
        unfold seg_room_ready. destruct m; cbn; unfold started; cbn.
        -- split; [reflexivity |]. split; [count_log |]. split; [count_log | exact Hroom].
        -- split; [reflexivity |]. split; [exact Hone |]. count_log.
      * (* history resolved *)
        destruct Hts as [Hatt Hroom].
        destruct Hroom as [room Hroom].
        destruct (loadHistory_frame h s) as (Hr & Hf & _).
        set (w0 := match h with
                   | HistoryRejects =>
                       emit [ConsoleError "Failed to load message history:"]
                         (mkWorld s cn cl [mkTask AwaitHistory m c0 u n] lg)
                   | HistoryResponse _ _ =>
                       mkWorld s cn cl [mkTask AwaitHistory m c0 u n] lg
                   end).
        assert (H0 : refs w0 = s /\ tasks w0 = [mkTask AwaitHistory m c0 u n]
                     /\ connection_attempts w0 = 1%nat /\ room_attaches w0 = 1%nat).
        { subst w0. destruct h; cbn; repeat split; try assumption; count_log. }
        destruct H0 as (Hrefs & Htk & Hc & Ha).
        change ([mkTask AwaitHistory m c0 u n] !! 0%nat)
          with (Some (mkTask AwaitHistory m c0 u n)).
        cbv iota beta.
        change (resume (mkTask AwaitHistory m c0 u n) (HistoryDone h)
                  (mkWorld s cn cl [mkTask AwaitHistory m c0 u n] lg))
          with (seg_subscribe (mkTask AwaitHistory m c0 u n)
                  (on_refs (loadHistory h) w0)).
        destruct (seg_subscribe_room (mkTask AwaitHistory m c0 u n)
                    (on_refs (loadHistory h) w0) room) as (w' & -> & Hf' & Hr' & Ht' & Hc' & Ha').
        { cbn. rewrite Hrefs, Hr. exact Hroom. }
        cbn in Hf', Ht'. rewrite Hrefs, Hf in Hf'.
        assert (Hc0 : connection_attempts (on_refs (loadHistory h) w0) = 1%nat)
          by (rewrite <- Hc; destruct w0; reflexivity).
        assert (Ha0 : room_attaches (on_refs (loadHistory h) w0) = 1%nat)
          by (rewrite <- Ha; destruct w0; reflexivity).
        rewrite Hc0 in Hc'. rewrite Ha0 in Ha'.
        destruct w' as [s' cn' cl' ts' lg']. cbn in *.
        unfold started. cbn. rewrite Hf'. split; [exact Hflag |].
        split; [exact Hc' |]. rewrite Ht', Htk. cbn. split; [exact Ha' | eauto].
      * (* presence.enter resolved *)
        destruct Hts as [Hatt [room Hroom]]. destruct s; cbn in *; subst.
        unfold started. cbn. split; [reflexivity |].
        split; [count_log |]. split; [count_log | eauto].
      * (* presence.get resolved *)
        destruct Hts as [Hatt Hroom]. destruct s; cbn in *; subst.
        unfold started. cbn. split; [reflexivity |].
        split; [exact Hone | lia].
Qed.

Lemma run_benign (es : list Event) (w : World) :
  Forall benign es -> quiet w \/ started w ->
  quiet (run w es) \/ started (run w es).
Proof.
  intros Hes. revert w. induction Hes as [| e rest Hb _ IH]; intros w Hw.
  - exact Hw.
  - cbn [run fold_left]. apply IH.
    destruct Hw as [Hq | Hs].
    + apply step_quiet; assumption.
    + right. apply step_started; assumption.
Qed.

(** However often the effect runs again, as long as nothing fails and the
    component stays mounted there is at most one connection attempt and
    at most one room attach, and exactly one connection attempt once an
    activation has passed the guard. *)
Lemma benign_run_no_duplicate (es : list Event) :
  Forall benign es ->
  let w := run initial_world es in
  (connection_attempts w <= 1)%nat
  /\ (room_attaches w <= 1)%nat
  /\ (isInitializedRef (refs w) = true -> connection_attempts w = 1%nat).
Proof.
  intros Hes w.
  assert (Hinit : quiet initial_world \/ started initial_world)
    by (left; unfold quiet; cbn; auto 10).
  destruct (run_benign es initial_world Hes Hinit) as [Hq | Hs].
  - fold w in Hq. destruct Hq as (Hflag & Hlog & _).
    unfold connection_attempts, room_attaches. rewrite Hlog, Hflag. cbn.
    repeat split; first [lia | discriminate].
  - fold w in Hs. destruct Hs as (Hflag & Hone & Hts).
    split; [lia |]. split; [| auto].
    destruct (tasks w) as [| t [| t2 ts]]; [exact Hts | | contradiction].
    destruct (pc t); lia.
Qed.

End Counts.

(** C5 (the code differs). The session changes while the first activation
    still waits for the connection, so the effect runs a second time: the
    second call of [setupChat] returns at the guard and there is one
    connection attempt, but the cleanup before it has set [isMounted] of
    the first call to false, and when the connection is established that
    call returns without attaching a room. No room is ever attached: the
    flag stays set, so every later activation returns at the guard too.
    Without the second run the same activation attaches the room once. *)
Theorem rerun_while_connecting_never_attaches :
  let activate := EffectRun (Some alice) (js "Bright Hawk") in
  let w := run initial_world [activate; activate; ConnectionSettles ConnConnected] in
  connection_attempts w = 1%nat
  /\ room_attaches w = 0%nat
  /\ tasks w = []
  /\ isInitializedRef (refs w) = true
  /\ room (refs w) = None
  /\ currentRoomRef (refs w) = None
  /\ (forall session name,
        step w (EffectRun session name) = w)
  /\ room_attaches
       (run initial_world [activate; ConnectionSettles ConnConnected;
                           Settle 0 (RoomsGetOk (Some 7%nat)); Settle 0 AttachOk])
     = 1%nat.
Proof.
  cbv zeta.
  set (w := run initial_world _).
  assert (Hflag : isInitializedRef (refs w) = true) by (vm_compute; reflexivity).
  assert (Htasks : tasks w = []) by (vm_compute; reflexivity).
  split; [vm_compute; reflexivity |].
  split; [vm_compute; reflexivity |].
  split; [exact Htasks |].
  split; [exact Hflag |].
  split; [vm_compute; reflexivity |].
  split; [vm_compute; reflexivity |].
  split.
  - intros session name. rewrite effect_rerun_initialized by exact Hflag.
    rewrite Htasks. destruct w; simpl in *. subst. reflexivity.
  - vm_compute. reflexivity.
Qed.

(* ===================================================================== *)
(** * Further properties                                                  *)
(* ===================================================================== *)

(** ** Trimming                                                           *)

Section Trim.

Lemma trimStart_cases (s : jsstring) :
  trimStart s = [] \/ exists c rest, trimStart s = c :: rest /\ is_space c = false.
Proof.
  induction s as [| c rest IH]; simpl; [left; reflexivity |].
  destruct (is_space c) eqn:Hc; [exact IH |].
  right. exists c, rest. split; [reflexivity | exact Hc].
Qed.

Lemma trimStart_snoc (x : jsstring) (c : Z) :
  is_space c = false -> trimStart (x ++ [c]) = trimStart x ++ [c].
Proof.
  intros Hc. induction x as [| d rest IH]; simpl.
  - rewrite Hc. reflexivity.
  - destruct (is_space d); [exact IH | reflexivity].
Qed.

Lemma trimStart_fixed (c : Z) (rest : jsstring) :
  is_space c = false -> trimStart (c :: rest) = c :: rest.
Proof. intros Hc. simpl. rewrite Hc. reflexivity. Qed.

Lemma trim_shape (s : jsstring) :
  trim s = [] \/
  exists c rest, trimStart s = c :: rest /\ is_space c = false
                 /\ trim s = c :: rev (trimStart (rev rest)).
Proof.
  unfold trim.
  destruct (trimStart_cases s) as [-> | (c & rest & -> & Hc)].
  - left. reflexivity.
  - right. exists c, rest. split; [reflexivity |]. split; [exact Hc |].
    simpl rev at 2. rewrite trimStart_snoc by exact Hc.
    rewrite rev_app_distr. reflexivity.
Qed.

Lemma List_last_snoc (x : jsstring) (d c : Z) : List.last (x ++ [d]) c = d.
Proof. apply List.last_last. Qed.

Lemma trim_trimmed (s : jsstring) : trimmed (trim s).
Proof.
  destruct (trim_shape s) as [-> | (c & rest & _ & Hc & ->)]; [exact I |].
  unfold trimmed. split; [exact Hc |].
  destruct (trimStart_cases (rev rest)) as [-> | (d & r' & -> & Hd)].
  - simpl. exact Hc.
  - change (c :: rev (d :: r')) with ([c] ++ rev (d :: r')).
    simpl rev. rewrite app_assoc, List_last_snoc. exact Hd.
Qed.

Lemma trim_fixed (t : jsstring) : trimmed t -> trim t = t.
Proof.
  destruct t as [| c u]; [reflexivity |].
  intros [Hc Hlast]. unfold trim.
  rewrite trimStart_fixed by exact Hc.
  simpl rev at 2. rewrite trimStart_snoc by exact Hc.
  rewrite rev_app_distr. simpl. f_equal.
  destruct u as [| d u' _] using rev_ind; [reflexivity |].
  change (c :: u' ++ [d]) with ((c :: u') ++ [d]) in Hlast.
  rewrite List_last_snoc in Hlast.
  rewrite rev_app_distr.
  change (rev [d] ++ rev u') with (d :: rev u').
  rewrite trimStart_fixed by exact Hlast.
  cbn [rev]. rewrite rev_involutive. reflexivity.
Qed.

Lemma trim_idempotent (s : jsstring) : trim (trim s) = trim s.
Proof. apply trim_fixed, trim_trimmed. Qed.

End Trim.

(** ** What a send hands on                                               *)

Lemma sendMessage_texts (s : ChatState) (session : option User) (text t : jsstring)
    (persist : PersistResult) (publish : PublishResult) :
  In (PersistPOST t) (sendMessage s session text persist publish)
  \/ In (Publish t) (sendMessage s session text persist publish) ->
  t = text.
Proof.
  unfold sendMessage, publish_part, send_catch.
  destruct (room s), session, persist as [| [|] [|]], publish; simpl;
    intuition congruence.
Qed.

Lemma handleTyping_no_text (s : ChatState) (b : bool) (t : jsstring) :
  ~ (In (PersistPOST t) (handleTyping s b) \/ In (Publish t) (handleTyping s b)).
Proof.
  unfold handleTyping. destruct (room s), b; simpl; intuition discriminate.
Qed.

(** X1. Whatever the input field holds, a text that reaches the store or
    the channel through the send button is the field's text trimmed: it
    is not empty, has no white space at either end, and trimming it again
    (as the server does) leaves it as it is. *)
Theorem press_send_texts_trimmed (input : MessageInput.State) (s : ChatState)
    (session : option User) (persist : PersistResult) (publish : PublishResult)
    (t : jsstring) :
  In (PersistPOST t) (press_send input s session persist publish).2
  \/ In (Publish t) (press_send input s session persist publish).2 ->
  t = trim (MessageInput.text input)
  /\ t <> []
  /\ trimmed t
  /\ trim t = t.
Proof.
  intros Hin.
  assert (Hc : exists c, In c (MessageInput.handleSend true input).2
                         /\ (In (PersistPOST t) (run_call s session persist publish c)
                             \/ In (Publish t) (run_call s session persist publish c))).
  { destruct Hin as [Hin | Hin]; apply press_send_effects in Hin;
      destruct Hin as (c & Hc & He); eauto. }
  destruct Hc as (c & Hc & He).
  unfold MessageInput.handleSend in Hc.
  destruct (truthy (trim (MessageInput.text input))) eqn:Ht; [| destruct Hc].
  assert (Heq : t = trim (MessageInput.text input)).
  { destruct c as [text | b' | timer]; cbn [run_call] in He.
    - apply sendMessage_texts in He. subst t.
      cbn [MessageInput.isTypingRef MessageInput.typingTimeoutRef
           MessageInput.text] in Hc.
      destruct (MessageInput.isTypingRef input && true);
        cbn [fst snd MessageInput.typingTimeoutRef] in Hc;
        destruct (MessageInput.typingTimeoutRef input);
        cbn [app In] in Hc;
        repeat (destruct Hc as [Hc | Hc]; [congruence |]); destruct Hc.
    - exfalso. exact (handleTyping_no_text s b' t He).
    - destruct He as [[] | []]. }
  subst t. split; [reflexivity |].
  split; [intros Hnil; rewrite Hnil in Ht; discriminate |].
  split; [apply trim_trimmed | apply trim_idempotent].
Qed.

Lemma press_send_texts_trimmed_witness :
  let input := MessageInput.mkInput (js "  see you at 5 ") None true in
  js "see you at 5" = trim (MessageInput.text input)
  /\ js "see you at 5" <> []
  /\ trimmed (js "see you at 5")
  /\ trim (js "see you at 5") = js "see you at 5".
Proof.
  intros input.
  apply (press_send_texts_trimmed input active_state (Some alice)
           (PersistResponse true true) PublishOk (js "see you at 5")).
  right. vm_compute. tauto.
Defined.

(** A field that holds only white space sends nothing and stays as it is. *)
Lemma press_send_blank (input : MessageInput.State) (s : ChatState)
    (session : option User) (persist : PersistResult) (publish : PublishResult) :
  truthy (trim (MessageInput.text input)) = false ->
  press_send input s session persist publish = (input, []).
Proof.
  intros Ht. unfold press_send, MessageInput.handleSend. rewrite Ht. reflexivity.
Qed.

(** ** The typing debounce of the input                                   *)

Section Debounce.

Import TypingDebounce.

Variable onTyping : bool.

Lemma clear_slot_empties (s : MessageInput.State) (tm : Timers) :
  (forall timer, timer ∈ pending tm -> MessageInput.typingTimeoutRef s = Some timer) ->
  pending (match MessageInput.typingTimeoutRef s with
           | Some timer => clearTimeout timer tm
           | None => tm
           end) = ∅.
Proof.
  intros Hslot. apply leibniz_equiv. apply elem_of_equiv_empty. intros x Hx.
  destruct (MessageInput.typingTimeoutRef s) as [timer |] eqn:Href.
  - simpl in Hx. apply elem_of_difference in Hx. destruct Hx as [Hx Hne].
    specialize (Hslot x Hx). injection Hslot as ->. set_solver.
  - specialize (Hslot x Hx). discriminate.
Qed.

Lemma handleSend_timers_ok (s : MessageInput.State) (tm : Timers) :
  timers_ok onTyping (s, tm) ->
  timers_ok onTyping (handleSend onTyping s tm).1.
Proof.
  intros [Hslot Htyping]. unfold handleSend, MessageInput.handleSend.
  destruct (truthy (trim (MessageInput.text s))); [| split; assumption].
  cbn [fst snd] in *.
  destruct s as [text ref typing]. cbn in *.
  assert (Hoff : (if typing && onTyping then false else typing) = false).
  { destruct typing; [| reflexivity].
    destruct (Htyping eq_refl) as [-> _]. reflexivity. }
  assert (Hempty : forall tm0, pending tm0 = pending tm ->
            pending (match ref with
                     | Some timer => clearTimeout timer tm0
                     | None => tm0
                     end) = ∅).
  { intros tm0 Hp.
    apply (clear_slot_empties (MessageInput.mkInput text ref typing) tm0).
    rewrite Hp. exact Hslot. }
  destruct (typing && onTyping) eqn:Hb; cbn;
    destruct ref as [timer |]; cbn.
  all: unfold timers_ok; cbn; split;
    [ intros x Hx; try (apply elem_of_difference in Hx; destruct Hx as [Hx _]);
      exact (Hslot x Hx)
    | intros Hon;
      first [ discriminate
            | destruct (Htyping Hon) as [-> _]; subst; discriminate ] ].
Qed.

Lemma handleChange_timers_ok (newText : jsstring) (s : MessageInput.State)
    (tm : Timers) :
  timers_ok onTyping (s, tm) ->
  timers_ok onTyping (handleChange onTyping newText s tm).1.
Proof.
  intros [Hslot Htyping]. unfold handleChange.
  destruct s as [text ref typing]. cbn in *.
  destruct onTyping eqn:Hon; cbn.
  - pose proof (clear_slot_empties (MessageInput.mkInput newText ref typing) tm Hslot)
      as Hempty. cbn in Hempty.
    destruct (truthy newText); cbn.
    + destruct typing; cbn; unfold timers_ok; cbn; rewrite Hempty;
        (split; [intros x Hx; f_equal; set_solver |]);
        intros _; (split; [reflexivity |]); eexists; (split; [reflexivity |]);
        set_solver.
    + destruct typing; cbn; unfold timers_ok; cbn; rewrite Hempty;
        (split; [intros x Hx; set_solver | intros Hf; discriminate]).
  - unfold timers_ok. cbn. split; [exact Hslot |].
    intros Ht. destruct (Htyping Ht) as [Hf _]. discriminate.
Qed.

Lemma timer_fires_timers_ok (timer : nat) (s : MessageInput.State) (tm : Timers) :
  timers_ok onTyping (s, tm) ->
  timers_ok onTyping (timer_fires timer s tm).1.
Proof.
  intros [Hslot Htyping]. unfold timer_fires.
  destruct (decide (timer ∈ pending tm)) as [Hin | Hnin]; [| split; assumption].
  destruct s as [text ref typing]. cbn in *.
  assert (Hgone : forall x, x ∈ pending tm ∖ {[timer]} -> False).
  { intros x Hx. apply elem_of_difference in Hx. destruct Hx as [Hx Hne].
    pose proof (Hslot x Hx) as H1. pose proof (Hslot timer Hin) as H2.
    rewrite H1 in H2. injection H2 as ->. set_solver. }
  destruct typing; cbn; unfold timers_ok; cbn;
    (split; [intros x Hx; destruct (Hgone x Hx) | intros Hf; discriminate]).
Qed.

Lemma step_timers_ok (st : MessageInput.State * Timers) (e : InputEvent) :
  timers_ok onTyping st -> timers_ok onTyping (step onTyping st e).1.
Proof.
  destruct st as [s tm]. intros Hok.
  destruct e as [newText | key shiftKey | | timer]; cbn [step fst snd].
  - apply handleChange_timers_ok, Hok.
  - unfold handleKeyPress.
    destruct (bool_decide (key = js "Enter") && negb shiftKey);
      [apply handleSend_timers_ok, Hok | exact Hok].
  - apply handleSend_timers_ok, Hok.
  - apply timer_fires_timers_ok, Hok.
Qed.

Lemma run_timers_ok (es : list InputEvent) (st : MessageInput.State * Timers) :
  timers_ok onTyping st -> timers_ok onTyping (run onTyping st es).1.
Proof.
  revert st. induction es as [| e rest IH]; intros st Hok; [exact Hok |].
  cbn [run].
  pose proof (step_timers_ok st e Hok) as Hstep.
  destruct (step onTyping st e) as [st1 calls].
  specialize (IH st1 Hstep).
  destruct (run onTyping st1 rest) as [st2 later]. exact IH.
Qed.

(** Every handler makes at most one [onTyping] call, and exactly when it
    flips [isTypingRef], with the new value. *)
Lemma step_flags (st : MessageInput.State * Timers) (e : InputEvent) :
  let out := step onTyping st e in
  (typing_flags out.2 = []
   /\ MessageInput.isTypingRef out.1.1 = MessageInput.isTypingRef st.1)
  \/ (typing_flags out.2 = [negb (MessageInput.isTypingRef st.1)]
      /\ MessageInput.isTypingRef out.1.1 = negb (MessageInput.isTypingRef st.1)).
Proof.
  destruct st as [[text ref typing] tm].
  assert (Hsend : let out := handleSend onTyping (MessageInput.mkInput text ref typing) tm in
            (typing_flags out.2 = [] /\ MessageInput.isTypingRef out.1.1 = typing)
            \/ (typing_flags out.2 = [negb typing]
                /\ MessageInput.isTypingRef out.1.1 = negb typing)).
  { unfold handleSend, MessageInput.handleSend.
    cbn [MessageInput.text MessageInput.isTypingRef MessageInput.typingTimeoutRef].
    destruct (truthy (trim text)); [| cbn; auto].
    destruct typing, onTyping, ref; cbn; auto. }
  destruct e as [newText | key shiftKey | | timer]; cbn [step fst snd].
  - unfold handleChange. cbn.
    destruct onTyping, (truthy newText), typing, ref; cbn; auto.
  - unfold handleKeyPress.
    destruct (bool_decide (key = js "Enter") && negb shiftKey); [exact Hsend |].
    cbn. auto.
  - exact Hsend.
  - unfold timer_fires. cbn.
    destruct (decide (timer ∈ pending tm)), typing; cbn; auto.
Qed.

End Debounce.

Lemma last_cons_default (b d : bool) (l : list bool) :
  List.last (b :: l) d = List.last l b.
Proof.
  revert b d. induction l as [| x rest IH]; intros b d; [reflexivity |].
  change (List.last (b :: x :: rest) d) with (List.last (x :: rest) d).
  rewrite (IH x d), (IH x b). reflexivity.
Qed.

Lemma run_flags (onTyping : bool) (es : list TypingDebounce.InputEvent)
    (st : MessageInput.State * TypingDebounce.Timers) :
  let out := TypingDebounce.run onTyping st es in
  TypingDebounce.alternates (MessageInput.isTypingRef st.1)
    (TypingDebounce.typing_flags out.2)
  /\ MessageInput.isTypingRef out.1.1
     = List.last (TypingDebounce.typing_flags out.2) (MessageInput.isTypingRef st.1).
Proof.
  revert st. induction es as [| e rest IH]; intros st; [split; [exact I | reflexivity] |].
  cbn [TypingDebounce.run].
  pose proof (step_flags onTyping st e) as Hstep.
  destruct (TypingDebounce.step onTyping st e) as [st1 calls].
  specialize (IH st1).
  destruct (TypingDebounce.run onTyping st1 rest) as [st2 later].
  cbn [fst snd] in *. unfold TypingDebounce.typing_flags in *.
  rewrite omap_app.
  destruct Hstep as [[-> Hsame] | [-> Hflip]]; cbn [app].
  - rewrite <- Hsame. exact IH.
  - rewrite Hflip in IH. destruct IH as [Halt Hlast].
    split; [split; [reflexivity | exact Halt] |].
    rewrite last_cons_default. exact Hlast.
Qed.

(** X2. In every run of the input (changes, key presses, clicks on send,
    timer expiries) the [onTyping] calls alternate, starting with [true]:
    the indicator is never started twice without a stop in between nor
    stopped twice, and [isTypingRef] is the argument of the last call. *)
Theorem typing_calls_alternate (onTyping : bool)
    (es : list TypingDebounce.InputEvent) :
  let out := TypingDebounce.run onTyping TypingDebounce.initial es in
  TypingDebounce.alternates false (TypingDebounce.typing_flags out.2)
  /\ MessageInput.isTypingRef out.1.1
     = List.last (TypingDebounce.typing_flags out.2) false.
Proof. exact (run_flags onTyping es TypingDebounce.initial). Qed.

(** X3. In every run of the input at most one timer is pending; while the
    indicator is on exactly one is, and its expiry makes the one call
    [onTyping(false)], turns the indicator off and leaves no timer; while
    the indicator is off no expiry makes a call. *)
Theorem typing_stop_timer (onTyping : bool) (es : list TypingDebounce.InputEvent) :
  let st := (TypingDebounce.run onTyping TypingDebounce.initial es).1 in
  (forall t1 t2, t1 ∈ TypingDebounce.pending st.2 ->
                 t2 ∈ TypingDebounce.pending st.2 -> t1 = t2)
  /\ (MessageInput.isTypingRef st.1 = true ->
      exists timer,
        TypingDebounce.pending st.2 = {[timer]}
        /\ TypingDebounce.timer_fires timer st.1 st.2
           = (TypingDebounce.set_isTypingRef false st.1,
              TypingDebounce.mkTimers ∅ (TypingDebounce.next st.2),
              [MessageInput.OnTyping false]))
  /\ (MessageInput.isTypingRef st.1 = false ->
      forall timer, (TypingDebounce.timer_fires timer st.1 st.2).2 = []).
Proof.
  cbv zeta.
  assert (Hinit : TypingDebounce.timers_ok onTyping TypingDebounce.initial).
  { split; cbn; [intros t Ht; set_solver | discriminate]. }
  pose proof (run_timers_ok onTyping es _ Hinit) as [Hslot Htyping].
  destruct (TypingDebounce.run onTyping TypingDebounce.initial es) as [[s tm] calls].
  cbn [fst snd] in *.
  split; [| split].
  - intros t1 t2 H1 H2. pose proof (Hslot t1 H1) as E1. pose proof (Hslot t2 H2) as E2.
    congruence.
  - intros Hon. destruct (Htyping Hon) as [_ (timer & Href & Hin)].
    exists timer.
    assert (Hone : TypingDebounce.pending tm = {[timer]}).
    { apply leibniz_equiv. apply set_equiv. intros x. rewrite elem_of_singleton.
      split.
      - intros Hx. pose proof (Hslot x Hx) as E. congruence.
      - intros ->. exact Hin. }
    split; [exact Hone |].
    unfold TypingDebounce.timer_fires.
    destruct (decide (timer ∈ TypingDebounce.pending tm)); [| contradiction].
    rewrite Hon. unfold TypingDebounce.clearTimeout. rewrite Hone.
    repeat f_equal. apply leibniz_equiv. set_solver.
  - intros Hoff timer. unfold TypingDebounce.timer_fires.
    destruct (decide (timer ∈ TypingDebounce.pending tm)); [| reflexivity].
    rewrite Hoff. reflexivity.
Qed.

Example typing_debounce_run :
  (TypingDebounce.run true TypingDebounce.initial
     [TypingDebounce.Change (js "h"); TypingDebounce.Change (js "hi");
      TypingDebounce.TimerFires 1; TypingDebounce.TimerFires 2;
      TypingDebounce.Change (js "hi!");
      TypingDebounce.KeyPress (js "Enter") false;
      TypingDebounce.TimerFires 3]).2
  = [MessageInput.OnTyping true; MessageInput.OnTyping false;
     MessageInput.OnTyping true; MessageInput.OnSend (js "hi!");
     MessageInput.OnTyping false; MessageInput.ClearTimeout 3].
Proof. vm_compute. reflexivity. Qed.

(** ** The messages route                                                 *)

Section Messages.

Import MessagesRoute.

Lemma insert_asc_length (r : ChatMessage) (rows : list ChatMessage) :
  length (insert_asc r rows) = S (length rows).
Proof.
  induction rows as [| r' rest IH]; simpl; [reflexivity |].
  destruct (created_at r <=? created_at r'); simpl; [reflexivity |].
  rewrite IH. reflexivity.
Qed.

Lemma orderBy_length (rows : list ChatMessage) :
  length (orderBy_created_at_asc rows) = length rows.
Proof.
  induction rows as [| r rest IH]; simpl; [reflexivity |].
  rewrite insert_asc_length, IH. reflexivity.
Qed.

Lemma in_firstn (n : nat) (l : list ChatMessage) (x : ChatMessage) :
  In x (firstn n l) -> In x l.
Proof.
  intros H. rewrite <- (firstn_skipn n l). apply in_or_app. left. exact H.
Qed.

Lemma sorted_firstn (n : nat) (l : list ChatMessage) :
  StronglySorted older_eq l -> StronglySorted older_eq (firstn n l).
Proof.
  revert l. induction n as [| n IH]; intros l Hs; [constructor |].
  destruct l as [| x rest]; [constructor |].
  apply StronglySorted_inv in Hs. destruct Hs as [Hs Hall].
  simpl. constructor; [apply IH, Hs |].
  apply Forall_forall. intros y Hy. rewrite Forall_forall in Hall.
  apply Hall. apply list_elem_of_In. apply list_elem_of_In in Hy.
  eapply in_firstn. exact Hy.
Qed.

Lemma sorted_format (l : list ChatMessage) :
  StronglySorted older_eq l ->
  StronglySorted (fun a b => Message.timestamp a <= Message.timestamp b)
                 (map format l).
Proof.
  induction 1 as [| x rest Hs IH Hall]; simpl; constructor; [exact IH |].
  apply Forall_forall. intros m Hm.
  apply list_elem_of_In, in_map_iff in Hm. destruct Hm as (r & <- & Hr).
  rewrite Forall_forall in Hall.
  apply (Hall r), list_elem_of_In, Hr.
Qed.

(** With at most 100 rows the query returns every row. *)
Lemma findMany_small (rows : list ChatMessage) (r : ChatMessage) :
  (length rows <= 100)%nat -> In r rows -> In r (findMany rows).
Proof.
  intros Hle Hr. unfold findMany.
  rewrite firstn_all2 by (rewrite orderBy_length; exact Hle).
  apply orderBy_elem. exact Hr.
Qed.

End Messages.

(** X4. The history handler answers with min(100, size of the table)
    messages in non-decreasing creation time, each one a row of the table
    as formatted (no row invented, author name the user's flona name if
    there is one and the stored name otherwise); with at most 100 rows in
    the table every row is returned. *)
Theorem GET_shape (rows : list MessagesRoute.ChatMessage) :
  let out := MessagesRoute.body_of (MessagesRoute.GET (Some rows)) in
  length out = Nat.min 100 (length rows)
  /\ StronglySorted (fun a b => Message.timestamp a <= Message.timestamp b) out
  /\ (forall m, In m out -> exists r, In r rows /\ m = MessagesRoute.format r)
  /\ ((length rows <= 100)%nat ->
      forall r, In r rows -> In (MessagesRoute.format r) out).
Proof.
  cbn [MessagesRoute.GET MessagesRoute.body_of]. unfold MessagesRoute.findMany.
  split; [| split; [| split]].
  - rewrite length_map, length_firstn, orderBy_length. reflexivity.
  - apply sorted_format, sorted_firstn, orderBy_sorted.
  - intros m Hm. apply in_map_iff in Hm. destruct Hm as (r & <- & Hr).
    exists r. split; [| reflexivity].
    apply orderBy_elem. eapply in_firstn. exact Hr.
  - intros Hle r Hr. apply in_map.
    apply (findMany_small rows r Hle Hr).
Qed.

Lemma or_else_twice (a : option jsstring) (b : jsstring) :
  or_else a (or_else a b) = or_else a b.
Proof. destruct a as [x |]; simpl; [destruct (truthy x) |]; reflexivity. Qed.

Lemma present_truthy (o : option jsstring) (x : jsstring) :
  MessagesPost.present o = Some x -> o = Some x /\ x <> [].
Proof.
  destruct o as [y |]; simpl; [| discriminate].
  destruct y; simpl; [discriminate |]. intros [= <-]. split; [reflexivity | discriminate].
Qed.

(** What an accepted request appends and answers. *)
Lemma POST_accepted (session : MessagesPost.SessionResult)
    (body : MessagesPost.RequestBody) (faults : MessagesPost.Faults)
    (new_id : jsstring) (now : Z) (db : Db) (status : Z) (m : Message.t) :
  (MessagesPost.POST session body faults new_id now db).1
  = MessagesPost.Json status m ->
  exists row user_id user_email sent_text,
    (MessagesPost.POST session body faults new_id now db).2
    = mkDb (users db) (chat_messages db ++ [row])
    /\ body = MessagesPost.BodyObject sent_text
    /\ row = MessagesRoute.mkRow new_id user_id (Message.userName m) user_email
                (trim (or_else sent_text [])) now None
    /\ m = Message.mk new_id (trim (or_else sent_text [])) (Message.userName m)
                user_email now []
    /\ Message.userName m
       = or_else (findUnique_id db user_id ≫= u_flona_name) (Message.userName m)
    /\ truthy (trim (or_else sent_text [])) = true
    /\ status = 200
    /\ (exists u, session = MessagesPost.Session (Some u)
                  /\ MessagesPost.su_id u = Some user_id
                  /\ MessagesPost.su_email u = Some user_email).
Proof.
  unfold MessagesPost.POST.
  destruct session as [| [u |]]; cbn; try discriminate.
  destruct (MessagesPost.present (MessagesPost.su_id u)) as [uid |] eqn:Hid;
    [| discriminate].
  destruct (MessagesPost.present (MessagesPost.su_email u)) as [em |] eqn:Hem;
    [| discriminate].
  destruct body as [| sent]; [discriminate |].
  destruct (truthy (trim (or_else sent []))) eqn:Ht; cbn; [| discriminate].
  destruct (MessagesPost.find_throws faults); [discriminate |].
  destruct (MessagesPost.create_throws faults); [discriminate |].
  cbn. intros [= <- <-]. cbn.
  exists (MessagesRoute.mkRow new_id uid
            (or_else (findUnique_id db uid ≫= u_flona_name)
               (or_else (MessagesPost.su_name u) (js "Anonymous")))
            em (trim (or_else sent [])) now None), uid, em, sent.
  do 4 (split; [reflexivity |]).
  split; [symmetry; apply or_else_twice |].
  split; [exact Ht |]. split; [reflexivity |].
  exists u. apply present_truthy in Hid. apply present_truthy in Hem.
  destruct Hid as [Hid _], Hem as [Hem _]. auto.
Qed.

(** The row of an accepted request, column by column. *)
Lemma POST_accepted_row (session : MessagesPost.SessionResult)
    (body : MessagesPost.RequestBody) (faults : MessagesPost.Faults)
    (new_id : jsstring) (now : Z) (db : Db) (status : Z) (m : Message.t) :
  (MessagesPost.POST session body faults new_id now db).1
  = MessagesPost.Json status m ->
  exists sent u uid em,
    body = MessagesPost.BodyObject sent
    /\ session = MessagesPost.Session (Some u)
    /\ MessagesPost.su_id u = Some uid
    /\ MessagesPost.su_email u = Some em
    /\ chat_messages (MessagesPost.POST session body faults new_id now db).2
       = chat_messages db
         ++ [MessagesRoute.mkRow new_id uid
               (or_else (findUnique_id db uid ≫= u_flona_name)
                  (or_else (MessagesPost.su_name u) (js "Anonymous")))
               em (trim (or_else sent [])) now None]
    /\ m = Message.mk new_id (trim (or_else sent []))
             (or_else (findUnique_id db uid ≫= u_flona_name)
                (or_else (MessagesPost.su_name u) (js "Anonymous")))
             em now [].
Proof.
  unfold MessagesPost.POST.
  destruct session as [| [u |]]; cbn; try discriminate.
  destruct (MessagesPost.present (MessagesPost.su_id u)) as [uid |] eqn:Hid;
    [| discriminate].
  destruct (MessagesPost.present (MessagesPost.su_email u)) as [em |] eqn:Hem;
    [| discriminate].
  destruct body as [| sent]; [discriminate |].
  destruct (truthy (trim (or_else sent []))) eqn:Ht; cbn; [| discriminate].
  destruct (MessagesPost.find_throws faults); [discriminate |].
  destruct (MessagesPost.create_throws faults); [discriminate |].
  cbn. intros [= <- <-].
  apply present_truthy in Hid. apply present_truthy in Hem.
  destruct Hid as [Hid _], Hem as [Hem _].
  exists sent, u, uid, em. repeat split; assumption.
Qed.

(** An error answer leaves the tables as they were. *)
Lemma POST_rejected (session : MessagesPost.SessionResult)
    (body : MessagesPost.RequestBody) (faults : MessagesPost.Faults)
    (new_id : jsstring) (now : Z) (db : Db) (status : Z) (err : jsstring) :
  (MessagesPost.POST session body faults new_id now db).1
  = MessagesPost.JsonError status err ->
  (MessagesPost.POST session body faults new_id now db).2 = db
  /\ (status = 401 \/ status = 400 \/ status = 500).
Proof.
  unfold MessagesPost.POST, MessagesPost.failed.
  destruct session as [| user]; [intros [= <- _]; auto |].
  destruct (MessagesPost.present (user ≫= MessagesPost.su_id));
    [| intros [= <- _]; auto].
  destruct (MessagesPost.present (user ≫= MessagesPost.su_email));
    [| intros [= <- _]; auto].
  destruct body as [| sent]; [intros [= <- _]; auto |].
  cbv zeta.
  destruct (truthy (trim (or_else sent []))); cbn [negb];
    [| intros [= <- _]; auto].
  destruct (MessagesPost.find_throws faults); [intros [= <- _]; auto |].
  destruct (MessagesPost.create_throws faults); [intros [= <- _]; auto |].
  discriminate.
Qed.

(** X5. The POST handler stores nothing unless it answers 200: without a
    session user id or email it answers 401, and every error answer (401,
    400 for a text that is empty once trimmed, 500) leaves the tables as
    they were. An accepted request appends exactly one row: its text is
    the [text] of the request body trimmed (and not empty), its user id
    and email are the session's, its name the user's [flona_name], else
    the session's name, else "Anonymous", its id and time those the
    database gives; the answer is that row as the history handler would
    format it; the users table is never written. *)
Theorem POST_outcome (session : MessagesPost.SessionResult)
    (body : MessagesPost.RequestBody) (faults : MessagesPost.Faults)
    (new_id : jsstring) (now : Z) (db : Db) :
  let out := MessagesPost.POST session body faults new_id now db in
  users out.2 = users db
  /\ match out.1 with
     | MessagesPost.JsonError status _ =>
         out.2 = db /\ (status = 401 \/ status = 400 \/ status = 500)
     | MessagesPost.Json status m =>
         status = 200
         /\ exists row,
              chat_messages out.2 = chat_messages db ++ [row]
              /\ MessagesRoute.format (include_user out.2 row) = m
              /\ Message.id m = new_id
              /\ Message.timestamp m = now
              /\ Message.text m <> []
              /\ trimmed (Message.text m)
              /\ exists sent u uid em,
                   body = MessagesPost.BodyObject sent
                   /\ session = MessagesPost.Session (Some u)
                   /\ MessagesPost.su_id u = Some uid
                   /\ MessagesPost.su_email u = Some em
                   /\ row = MessagesRoute.mkRow new_id uid
                              (or_else (findUnique_id db uid ≫= u_flona_name)
                                 (or_else (MessagesPost.su_name u) (js "Anonymous")))
                              em (trim (or_else sent [])) now None
                   /\ Message.text m = trim (or_else sent [])
                   /\ Message.userEmail m = em
     end
  /\ match session with
     | MessagesPost.Session user =>
         MessagesPost.present (user ≫= MessagesPost.su_id) = None
         \/ MessagesPost.present (user ≫= MessagesPost.su_email) = None ->
         out = (MessagesPost.JsonError 401 (js "Unauthorized"), db)
     | MessagesPost.SessionThrows =>
         out = (MessagesPost.JsonError 500 (js "Failed to save message"), db)
     end.
Proof.
  cbv zeta.
  destruct (MessagesPost.POST session body faults new_id now db) as [resp db'] eqn:Hpost.
  assert (Hresp : (MessagesPost.POST session body faults new_id now db).1 = resp)
    by (rewrite Hpost; reflexivity).
  assert (Hdb : (MessagesPost.POST session body faults new_id now db).2 = db')
    by (rewrite Hpost; reflexivity).
  cbn [fst snd].
  split; [| split].
  - destruct resp as [status m | status err].
    + destruct (POST_accepted _ _ _ _ _ _ _ _ Hresp) as (row & uid & em & sent & Hd & _).
      rewrite Hdb in Hd. rewrite Hd. reflexivity.
    + destruct (POST_rejected _ _ _ _ _ _ _ _ Hresp) as [Hd _].
      rewrite Hdb in Hd. rewrite Hd. reflexivity.
  - destruct resp as [status m | status err].
    + destruct (POST_accepted _ _ _ _ _ _ _ _ Hresp)
        as (row & uid & em & sent & Hd & _ & Hrow & Hm & Hname & Ht & Hst & _).
      rewrite Hdb in Hd. rewrite Hd. split; [exact Hst |].
      exists row. cbn. split; [reflexivity |].
      assert (Htext : Message.text m = trim (or_else sent []))
        by (rewrite Hm; reflexivity).
      split; [| split; [rewrite Hm; reflexivity |
               split; [rewrite Hm; reflexivity | split; [| split]]]].
      * rewrite Hrow. unfold include_user, MessagesRoute.format, findUnique_id. cbn.
        unfold findUnique_id in Hname. cbn in Hname. rewrite <- Hname.
        rewrite Hm at 2. reflexivity.
      * rewrite Htext. intros Hnil. rewrite Hnil in Ht. discriminate.
      * rewrite Htext. apply trim_trimmed.
      * destruct (POST_accepted_row _ _ _ _ _ _ _ _ Hresp)
          as (sent' & u & uid' & em' & Hbody & Hsess & Huid & Hem & Hrows & Hm').
        rewrite Hdb, Hd in Hrows. cbn [chat_messages] in Hrows.
        apply app_inv_head in Hrows. injection Hrows as Hrow'.
        exists sent', u, uid', em'.
        do 4 (split; [assumption |]).
        split; [exact Hrow' |].
        rewrite Hm'. split; reflexivity.
    + destruct (POST_rejected _ _ _ _ _ _ _ _ Hresp) as [Hd Hst].
      rewrite Hdb in Hd. split; assumption.
  - destruct session as [| user]; [rewrite <- Hpost; reflexivity |].
    intros Hno. rewrite <- Hpost. unfold MessagesPost.POST.
    destruct Hno as [-> | Hno]; [reflexivity |].
    rewrite Hno. destruct (MessagesPost.present (user ≫= MessagesPost.su_id)); reflexivity.
Qed.

(** X6. With fewer than 100 messages stored, a message the POST handler
    accepted is returned by the next history load exactly as the POST
    answered it (same id, text, author name and email, time). *)
Theorem POST_then_GET (session : MessagesPost.SessionResult)
    (body : MessagesPost.RequestBody) (faults : MessagesPost.Faults)
    (new_id : jsstring) (now : Z) (db : Db) (status : Z) (m : Message.t) :
  (MessagesPost.POST session body faults new_id now db).1
  = MessagesPost.Json status m ->
  (length (chat_messages db) < 100)%nat ->
  In m (MessagesRoute.body_of
          (GET_messages (MessagesPost.POST session body faults new_id now db).2)).
Proof.
  intros Hresp Hlen.
  destruct (POST_accepted _ _ _ _ _ _ _ _ Hresp)
    as (row & uid & em & sent & Hd & _ & Hrow & Hm & Hname & _).
  rewrite Hd. unfold GET_messages. cbn [MessagesRoute.GET MessagesRoute.body_of chat_messages].
  assert (Hfmt : MessagesRoute.format
                   (include_user (mkDb (users db) (chat_messages db ++ [row])) row) = m).
  { rewrite Hrow. unfold include_user, MessagesRoute.format, findUnique_id. cbn.
    unfold findUnique_id in Hname. rewrite <- Hname. rewrite Hm at 2. reflexivity. }
  rewrite <- Hfmt. apply in_map. apply findMany_small.
  - rewrite length_map, length_app. cbn. lia.
  - apply in_map, in_or_app. right. left. reflexivity.
Qed.

Lemma POST_then_GET_witness :
  let user := MessagesPost.mkSessionUser (Some (js "user-1"))
                (Some (js "alice@example.com")) (Some (js "Alice")) in
  let db := mkDb [mkUserRow (js "user-1") (js "alice@example.com")
                    (Some (js "Bright Hawk"))] [] in
  let out := MessagesPost.POST (MessagesPost.Session (Some user))
               (MessagesPost.BodyObject (Some (js " hello ")))
               (MessagesPost.mkFaults false false) (js "msg-1") 1000 db in
  In (Message.mk (js "msg-1") (js "hello") (js "Bright Hawk")
                 (js "alice@example.com") 1000 [])
     (MessagesRoute.body_of (GET_messages out.2)).
Proof.
  intros user db out.
  apply (POST_then_GET (MessagesPost.Session (Some user))
           (MessagesPost.BodyObject (Some (js " hello ")))
           (MessagesPost.mkFaults false false) (js "msg-1") 1000 db 200).
  - vm_compute. reflexivity.
  - simpl. lia.
Defined.

(** X7. A text the input component hands to [onSend] passes the server's
    own check: posted by a signed-in user it is never answered with 400,
    and when the request is accepted the stored text is that text,
    unchanged by the server's trimming. *)
Theorem sent_text_accepted_verbatim (onTyping : bool) (input : MessageInput.State)
    (t : jsstring) (user : MessagesPost.SessionUser)
    (faults : MessagesPost.Faults) (new_id : jsstring) (now : Z) (db : Db) :
  In (MessageInput.OnSend t) (MessageInput.handleSend onTyping input).2 ->
  let out := MessagesPost.POST (MessagesPost.Session (Some user))
               (MessagesPost.BodyObject (Some t)) faults new_id now db in
  (forall err, out.1 <> MessagesPost.JsonError 400 err)
  /\ (forall status m, out.1 = MessagesPost.Json status m -> Message.text m = t).
Proof.
  intros Hin.
  assert (Ht : t = trim (MessageInput.text input)
               /\ truthy (trim (MessageInput.text input)) = true).
  { unfold MessageInput.handleSend in Hin.
    destruct (truthy (trim (MessageInput.text input))) eqn:Htr; [| destruct Hin].
    split; [| reflexivity].
    cbn [fst snd] in Hin.
    destruct (MessageInput.isTypingRef _ && onTyping);
      destruct (MessageInput.typingTimeoutRef _); cbn in Hin;
      intuition congruence. }
  destruct Ht as [-> Htr]. cbv zeta.
  assert (Hsame : trim (or_else (Some (trim (MessageInput.text input))) [])
                  = trim (MessageInput.text input)).
  { cbn [or_else]. rewrite Htr. apply trim_idempotent. }
  split.
  - intros err. unfold MessagesPost.POST, MessagesPost.failed.
    destruct (MessagesPost.present (Some user ≫= MessagesPost.su_id));
      [| discriminate].
    destruct (MessagesPost.present (Some user ≫= MessagesPost.su_email));
      [| discriminate].
    cbv zeta. rewrite Hsame, Htr. cbn [negb].
    destruct (MessagesPost.find_throws faults); [discriminate |].
    destruct (MessagesPost.create_throws faults); discriminate.
  - intros status m Hresp.
    destruct (POST_accepted _ _ _ _ _ _ _ _ Hresp)
      as (row & uid & em & sent & _ & Hbody & _ & Hm & _).
    injection Hbody as <-. rewrite Hm. cbn [Message.text]. exact Hsame.
Qed.

Lemma sent_text_accepted_verbatim_witness :
  let input := MessageInput.mkInput (js " hi there  ") None false in
  let user := MessagesPost.mkSessionUser (Some (js "user-1"))
                (Some (js "alice@example.com")) None in
  match (MessagesPost.POST (MessagesPost.Session (Some user))
           (MessagesPost.BodyObject (Some (js "hi there")))
           (MessagesPost.mkFaults false false) (js "msg-1") 1000 (mkDb [] [])).1
  with
  | MessagesPost.Json _ m => Message.text m = js "hi there"
  | MessagesPost.JsonError _ _ => False
  end.
Proof.
  intros input user.
  destruct (sent_text_accepted_verbatim true input (js "hi there") user
              (MessagesPost.mkFaults false false) (js "msg-1") 1000 (mkDb [] []))
    as [_ Hstored].
  - vm_compute. left. reflexivity.
  - exact (Hstored 200 _ eq_refl).
Defined.

(** ** The name resolver against the route                                *)


(** X9. Through the flona-name route, the first resolution of an
    identifier gives the registered flona name of the user with that
    email when there is one and it is not empty, and the fallback name in
    every other case: no such user (404), a user without a flona name, an
    empty identifier (400) or a failing query (500). *)
Theorem getFlonaName_through_route (throws : bool) (db : Db)
    (cache : gmap jsstring jsstring) (email : jsstring) :
  cache !! email = None ->
  lone_surrogate email = false ->
  (getFlonaName (FlonaNameRoute.fetch throws db) cache email).1.1
  = match findUnique_email db email ≫= u_flona_name with
    | Some name =>
        if truthy email && negb throws && truthy name
        then name else generateAnonymousName email
    | None => generateAnonymousName email
    end.
Proof.
  intros Hmiss Hwf.
  unfold getFlonaName, getFlonaName_begin. rewrite Hmiss, Hwf. cbn [fst snd].
  unfold getFlonaName_finish, FlonaNameRoute.fetch, FlonaNameRoute.GET. cbn [fst].
  unfold MessagesPost.present.
  destruct (truthy email) eqn:He.
  - destruct throws; cbn.
    + destruct (findUnique_email db email ≫= u_flona_name); reflexivity.
    + destruct (findUnique_email db email) as [u |]; cbn; [| reflexivity].
      destruct (u_flona_name u) as [name |]; cbn; [| reflexivity].
      destruct (truthy name); reflexivity.
  - cbn. destruct (findUnique_email db email ≫= u_flona_name); reflexivity.
Qed.

Lemma getFlonaName_through_route_witness :
  let db := mkDb [mkUserRow (js "user-1") (js "alice@example.com")
                    (Some (js "Crimson Fox"));
                  mkUserRow (js "user-2") (js "bob@example.com") None] [] in
  (getFlonaName (FlonaNameRoute.fetch false db) ∅ (js "alice@example.com")).1.1
  = js "Crimson Fox"
  /\ (getFlonaName (FlonaNameRoute.fetch false db) ∅ (js "bob@example.com")).1.1
     = js "Quick Panda".
Proof.
  intros db. split.
  - rewrite (getFlonaName_through_route false db ∅ (js "alice@example.com"));
      reflexivity.
  - rewrite (getFlonaName_through_route false db ∅ (js "bob@example.com"));
      reflexivity.
Defined.

(** ** What the history and the live handlers put in the view             *)

Section View.

(** The cache after seeding: the entry of an author is the name carried
    by the last loaded message of that author that has both fields. *)
Lemma seed_all_cache (hist : list Message.t) (s : ChatState) (e : jsstring) :
  (exists m, In m hist /\ Message.userEmail m = e
             /\ truthy (Message.userName m) = true
             /\ flonaNameCacheRef (fold_left seed_one hist s) !! e
                = Some (Message.userName m))
  \/ ((forall m, In m hist -> Message.userEmail m = e ->
                 truthy e && truthy (Message.userName m) = false)
      /\ flonaNameCacheRef (fold_left seed_one hist s) !! e
         = flonaNameCacheRef s !! e).
Proof.
  induction hist as [| x rest IH] using rev_ind.
  - right. split; [intros m [] | reflexivity].
  - rewrite fold_left_app. cbn [fold_left].
    set (s1 := fold_left seed_one rest s) in *.
    assert (Hcache : flonaNameCacheRef (seed_one s1 x)
              = if truthy (Message.userEmail x) && truthy (Message.userName x)
                then <[Message.userEmail x := Message.userName x]> (flonaNameCacheRef s1)
                else flonaNameCacheRef s1).
    { unfold seed_one. cbv zeta.
      destruct (truthy (Message.userEmail x) && truthy (Message.userName x));
        destruct s1; reflexivity. }
    rewrite Hcache.
    destruct (decide (Message.userEmail x = e)) as [Hx | Hx].
    + destruct (truthy (Message.userEmail x) && truthy (Message.userName x)) eqn:Hb.
      * left. exists x. apply andb_true_iff in Hb. destruct Hb as [_ Hn].
        split; [apply in_or_app; right; left; reflexivity |].
        split; [exact Hx |]. split; [exact Hn |].
        rewrite <- Hx. apply lookup_insert_eq.
      * destruct IH as [(m & Hin & He & Hn & Hc) | [Hnone Hc]].
        -- left. exists m. split; [apply in_or_app; left; exact Hin |]. auto.
        -- right. split; [| exact Hc].
           intros m Hin He. apply in_app_or in Hin. destruct Hin as [Hin | [<- | []]].
           ++ apply Hnone; assumption.
           ++ rewrite <- Hx. exact Hb.
    + assert (Hsame : (if truthy (Message.userEmail x) && truthy (Message.userName x)
                       then <[Message.userEmail x := Message.userName x]>
                              (flonaNameCacheRef s1)
                       else flonaNameCacheRef s1) !! e = flonaNameCacheRef s1 !! e).
      { destruct (truthy (Message.userEmail x) && truthy (Message.userName x));
          [apply lookup_insert_ne; exact Hx | reflexivity]. }
      rewrite Hsame.
      destruct IH as [(m & Hin & He & Hn & Hc) | [Hnone Hc]].
      * left. exists m. split; [apply in_or_app; left; exact Hin |]. auto.
      * right. split; [| exact Hc].
        intros m Hin He. apply in_app_or in Hin. destruct Hin as [Hin | [<- | []]].
        -- apply Hnone; assumption.
        -- contradiction.
Qed.

(** What a resumed handler appends. *)
Lemma messageSub_finish_appends (r : FetchResult) (p : Pending) (s : ChatState) :
  exists m,
    messages (messageSub_finish r p s) = messages s ++ [m]
    /\ Message.id m = p_id p
    /\ Message.text m = ev_text (p_event p)
    /\ Message.userEmail m = ev_clientId (p_event p)
    /\ Message.reactions m = [].
Proof.
  unfold messageSub_finish. destruct s.
  destruct (p_name p) as [t |].
  - destruct (getFlonaName_finish t r _) as [name cache].
    eexists. simpl. split; [reflexivity |]. repeat split.
  - eexists. simpl. split; [reflexivity |]. repeat split.
Qed.

Lemma live_step_appends (v v' : View) :
  live_step v v' ->
  exists added,
    messages v'.1 = messages v.1 ++ added
    /\ (forall m, In m added -> Message.reactions m = [])
    /\ messageIdsRef v.1 ⊆ messageIdsRef v'.1.
Proof.
  intros [now ev s s' p sent ps Hb | r p s ps1 ps2]; cbn [fst].
  - apply messageSub_begin_cases in Hb. destruct Hb as [Hm Hp].
    exists []. rewrite app_nil_r. split; [exact Hm |]. split; [intros m [] |].
    destruct p as [q |]; [destruct Hp as [_ ->]; set_solver | subst s'; reflexivity].
  - destruct (messageSub_finish_appends r p s) as (m & Hm & _ & _ & _ & Hr).
    destruct (messageSub_finish_cases r p s) as (_ & _ & _ & Hids).
    exists [m]. split; [exact Hm |]. split.
    + intros m' [<- | []]. exact Hr.
    + rewrite Hids. reflexivity.
Qed.

Lemma live_steps_append (v v' : View) :
  live_steps v v' ->
  exists added,
    messages v'.1 = messages v.1 ++ added
    /\ (forall m, In m added -> Message.reactions m = [])
    /\ messageIdsRef v.1 ⊆ messageIdsRef v'.1.
Proof.
  induction 1 as [v | v1 v2 v3 _ IH Hstep].
  - exists []. rewrite app_nil_r. split; [reflexivity |]. split; [intros m [] | reflexivity].
  - destruct IH as (a1 & Hm1 & Hr1 & Hs1).
    destruct (live_step_appends _ _ Hstep) as (a2 & Hm2 & Hr2 & Hs2).
    exists (a1 ++ a2). rewrite Hm2, Hm1, app_assoc.
    split; [reflexivity |]. split.
    + intros m Hin. apply in_app_or in Hin. destruct Hin; auto.
    + etransitivity; eassumption.
Qed.

End View.

(** X10. After a history load, the name of the author of any loaded
    message that carries an email and a name is resolved from the cache
    without a lookup, to a name the history carries for that author. *)
Theorem history_seeds_names (fetch : jsstring -> FetchResult)
    (hist : list Message.t) (s : ChatState) (m : Message.t) :
  In m hist ->
  truthy (Message.userEmail m) = true ->
  truthy (Message.userName m) = true ->
  let s' := loadHistory (HistoryResponse true hist) s in
  exists m',
    In m' hist
    /\ Message.userEmail m' = Message.userEmail m
    /\ getFlonaName fetch (flonaNameCacheRef s') (Message.userEmail m)
       = (Message.userName m', flonaNameCacheRef s', []).
Proof.
  intros Hin He Hn. cbn [loadHistory].
  destruct (seed_all_cache hist (setMessages hist s) (Message.userEmail m))
    as [(m' & Hin' & He' & _ & Hc) | [Hnone _]].
  - exists m'. split; [exact Hin' |]. split; [exact He' |].
    apply getFlonaName_hit. exact Hc.
  - specialize (Hnone m Hin eq_refl). rewrite He, Hn in Hnone. discriminate.
Qed.

Lemma history_seeds_names_witness :
  let m1 := Message.mk (js "m1") (js "hello") (js "Crimson Fox")
                       (js "alice@example.com") 1000 [] in
  exists m',
    In m' [m1]
    /\ Message.userEmail m' = js "alice@example.com"
    /\ getFlonaName (fun _ => FetchRejects)
         (flonaNameCacheRef (loadHistory (HistoryResponse true [m1]) initial_state))
         (js "alice@example.com")
       = (Message.userName m',
          flonaNameCacheRef (loadHistory (HistoryResponse true [m1]) initial_state), []).
Proof.
  intros m1.
  apply (history_seeds_names (fun _ => FetchRejects) [m1] initial_state m1);
    [left; reflexivity | reflexivity | reflexivity].
Defined.

(** X11. Live deliveries only ever append: after any interleaving of
    message handlers the list shown before is a prefix of the list shown
    after (nothing is removed, replaced or reordered), and the dedup set
    has only grown. *)
Theorem live_steps_append_only (v v' : View) :
  live_steps v v' ->
  (exists added, messages v'.1 = messages v.1 ++ added)
  /\ messageIdsRef v.1 ⊆ messageIdsRef v'.1.
Proof.
  intros Hsteps. destruct (live_steps_append v v' Hsteps) as (added & Hm & _ & Hs).
  split; [exists added; exact Hm | exact Hs].
Qed.

Lemma live_steps_append_only_witness :
  let ev := mkEvent (js "s-1") (js "bob@example.com") (js "yo") 1500 in
  let v : View := (active_state, []) in
  let v' : View := (messageSub (fun _ => FetchRejects) 0 ev active_state, []) in
  (exists added, messages v'.1 = messages v.1 ++ added)
  /\ messageIdsRef v.1 ⊆ messageIdsRef v'.1.
Proof.
  intros ev v v'.
  apply (live_steps_append_only v v').
  pose (s1 := (messageSub_begin 0 ev active_state).1.1).
  pose (p := mkPending (js "s-1") ev (Some (NameLookup (js "bob@example.com")))).
  apply (live_next v (s1, [] ++ option_cons (Some p) []) v').
  - apply (live_next v v); [apply live_refl |].
    apply (live_deliver 0 ev active_state s1 (Some p)
             [FetchFlonaName (js "bob@example.com")] []).
    vm_compute. reflexivity.
  - exact (live_resume FetchRejects p s1 [] []).
Defined.

(** X12. No message in the view ever carries a reaction: the history
    handler answers with empty reaction maps and the live handler builds
    its messages with an empty one, so after a history load from the
    route and any live deliveries no bubble renders a reaction row. *)
Theorem no_reaction_rendered (rows : list MessagesRoute.ChatMessage)
    (s : ChatState) (v : View) (m : Message.t) :
  live_steps
    (loadHistory (HistoryResponse true
                    (MessagesRoute.body_of (MessagesRoute.GET (Some rows)))) s, []) v ->
  In m (messages v.1) ->
  MessageBubble.hasReactions m = false.
Proof.
  intros Hsteps Hin.
  destruct (live_steps_append _ _ Hsteps) as (added & Hm & Hr & _).
  cbn [fst] in Hm. rewrite loadHistory_messages in Hm.
  rewrite Hm in Hin. unfold MessageBubble.hasReactions.
  apply in_app_or in Hin. destruct Hin as [Hin | Hin].
  - cbn [MessagesRoute.GET MessagesRoute.body_of] in Hin.
    apply in_map_iff in Hin. destruct Hin as (r & <- & _). reflexivity.
  - rewrite (Hr m Hin). reflexivity.
Qed.

Lemma no_reaction_rendered_witness :
  let loaded := loadHistory
                  (HistoryResponse true
                     (MessagesRoute.body_of (MessagesRoute.GET (Some [row_at 1]))))
                  initial_state in
  MessageBubble.hasReactions (MessagesRoute.format (row_at 1)) = false.
Proof.
  intros loaded.
  apply (no_reaction_rendered [row_at 1] initial_state (loaded, [])).
  - apply live_refl.
  - left. reflexivity.
Defined.

(** ** Events without a serial                                            *)

Lemma js_inj (a b : string) : js a = js b -> a = b.
Proof.
  revert b. induction a as [| x a IH]; intros [| y b]; simpl; try discriminate;
    [reflexivity |].
  intros [= Hxy Hab]. f_equal; [| apply IH, Hab].
  apply N2Z.inj in Hxy.
  rewrite <- (ascii_N_embedding x), <- (ascii_N_embedding y), Hxy. reflexivity.
Qed.

Lemma messageSub_records_id (fetch : jsstring -> FetchResult) (now : Z)
    (ev : MessageEvent) (s : ChatState) :
  messageId now ev ∈ messageIdsRef (messageSub fetch now ev s).
Proof.
  unfold messageSub.
  destruct (messageSub_begin now ev s) as [[s' p] sent] eqn:Hb.
  pose proof (messageSub_begin_cases _ _ _ _ _ _ Hb) as [_ Hp].
  destruct p as [q |].
  - destruct Hp as [_ Hids].
    destruct (messageSub_finish_cases (fetch (ev_clientId ev)) q s')
      as (_ & _ & _ & ->).
    rewrite Hids.
    assert (Hq : p_id q = messageId now ev).
    { revert Hb. unfold messageSub_begin. cbv zeta.
      destruct (decide (messageId now ev ∈ messageIdsRef s)); [discriminate |].
      destruct (truthy (ev_clientId ev)).
      - destruct (getFlonaName_begin _ _). intros [= _ <- _]. reflexivity.
      - intros [= _ <- _]. reflexivity. }
    rewrite Hq. set_solver.
  - subst s'. revert Hb. unfold messageSub_begin. cbv zeta.
    destruct (decide (messageId now ev ∈ messageIdsRef s)) as [Hin | Hnin];
      [intros _; exact Hin |].
    destruct (truthy (ev_clientId ev)); [destruct (getFlonaName_begin _ _) |];
      discriminate.
Qed.

(** X13. An event without a serial is identified by the clock reading at
    its delivery. A second such event delivered at the same reading is
    discarded as a duplicate, whatever it carries; at a different reading
    it gets a different identity. *)
Theorem clock_identity (fetch : jsstring -> FetchResult) (now1 now2 : Z)
    (ev1 ev2 : MessageEvent) (s : ChatState) :
  serial ev1 = [] ->
  serial ev2 = [] ->
  let s1 := messageSub fetch now1 ev1 s in
  (now1 = now2 -> messageSub_begin now2 ev2 s1 = (s1, None, []))
  /\ (now1 <> now2 -> messageId now1 ev1 <> messageId now2 ev2).
Proof.
  intros H1 H2 s1.
  assert (Hid : forall now ev, serial ev = [] -> messageId now ev = js (pretty now)).
  { intros now ev Hs. unfold messageId. rewrite Hs. reflexivity. }
  split.
  - intros <-. apply messageSub_begin_known.
    rewrite (Hid now1 ev2 H2), <- (Hid now1 ev1 H1).
    apply messageSub_records_id.
  - intros Hne Heq. rewrite (Hid _ _ H1), (Hid _ _ H2) in Heq.
    apply js_inj in Heq. apply (inj pretty) in Heq. contradiction.
Qed.

Lemma clock_identity_witness :
  let ev1 := mkEvent [] (js "alice@example.com") (js "first") 0 in
  let ev2 := mkEvent [] (js "bob@example.com") (js "second") 0 in
  let s1 := messageSub (fun _ => FetchRejects) 1700000000000 ev1 active_state in
  messageSub_begin 1700000000000 ev2 s1 = (s1, None, []).
Proof.
  intros ev1 ev2 s1.
  apply (clock_identity (fun _ => FetchRejects) 1700000000000 1700000000000
           ev1 ev2 active_state eq_refl eq_refl).
  reflexivity.
Defined.

(** ** The typing indicator                                               *)




(** ** The lifecycle of the component                                     *)

Section Lifecycle.

Lemma registrations_app (k : SubKind) (l1 l2 : list Effect) :
  registrations k (l1 ++ l2) = (registrations k l1 + registrations k l2)%nat.
Proof. unfold registrations. rewrite List.filter_app, length_app. reflexivity. Qed.

Lemma cancellations_app (k : SubKind) (l1 l2 : list Effect) :
  cancellations k (l1 ++ l2) = (cancellations k l1 + cancellations k l2)%nat.
Proof. unfold cancellations. rewrite List.filter_app, length_app. reflexivity. Qed.

Lemma handler_free_counts (k : SubKind) (es : list Effect) :
  Forall handler_free es -> registrations k es = 0%nat /\ cancellations k es = 0%nat.
Proof.
  induction 1 as [| e es He _ [IHr IHc]]; [split; reflexivity |].
  unfold registrations, cancellations in *.
  destruct e; cbn in *; try contradiction; split; assumption.
Qed.

Lemma same_handlers_refl (w : World) : same_handlers w w.
Proof.
  split; [reflexivity |]. exists []. split; [symmetry; apply app_nil_r | constructor].
Qed.

Lemma same_handlers_trans (w1 w2 w3 : World) :
  same_handlers w1 w2 -> same_handlers w2 w3 -> same_handlers w1 w3.
Proof.
  intros [Hs1 (es1 & Hl1 & Hf1)] [Hs2 (es2 & Hl2 & Hf2)].
  split; [congruence |].
  exists (es1 ++ es2). split.
  - rewrite Hl2, Hl1, app_assoc. reflexivity.
  - apply Forall_app. split; assumption.
Qed.

Lemma same_handlers_inv (w w' : World) :
  same_handlers w w' -> handlers_inv w -> handlers_inv w'.
Proof.
  intros [Hs (es & Hl & Hf)] [Hok Hcount]. split.
  - unfold subscriptions_ok in *. rewrite Hs. exact Hok.
  - intros k. rewrite Hl, Hs, registrations_app, cancellations_app, Hcount.
    destruct (handler_free_counts k es Hf) as [-> ->]. lia.
Qed.

Ltac same_log :=
  unfold same_handlers, room_catch, setupChat_catch, promise_callback; cbn;
  split;
  [ reflexivity
  | first [ exists []; split; [symmetry; apply app_nil_r | constructor]
          | eexists; split;
            [rewrite <- ?app_assoc; reflexivity | repeat constructor] ] ].

Lemma setupChat_catch_same (w : World) : same_handlers w (setupChat_catch w).
Proof. destruct w as [s cn cl ts lg]. destruct s. cbn. same_log. Qed.

Lemma room_catch_same (w : World) : same_handlers w (room_catch w).
Proof. destruct w as [s cn cl ts lg]. destruct s. cbn. same_log. Qed.

Lemma seg_room_ready_same (t : Task) (w : World) :
  same_handlers w (seg_room_ready t w).1.
Proof.
  unfold seg_room_ready, seg_history.
  destruct w as [s cn cl ts lg]. destruct s. cbn.
  destruct (isMounted t); cbn; same_log.
Qed.

Lemma seg_connected_same (t : Task) (w : World) :
  same_handlers w (seg_connected t w).1.
Proof.
  unfold seg_connected, seg_room_ready, seg_history.
  destruct w as [s cn cl ts lg]. destruct s. cbn.
  destruct (isMounted t); cbn; [| same_log].
  destruct chatClientRef0, currentRoomRef0; cbn; same_log.
Qed.

Lemma setupChat_same (session : option User) (name : jsstring) (w : World) :
  same_handlers w (setupChat session name w).1.
Proof.
  unfold setupChat. cbv zeta.
  destruct (isInitializedRef (refs w) || negb true); [apply same_handlers_refl |].
  destruct session as [user |]; [| apply same_handlers_refl].
  match goal with
  | |- context [match ?x with Some c => seg_connected _ _ | None => _ end] =>
      destruct x
  end.
  - eapply same_handlers_trans; [| apply seg_connected_same].
    destruct w as [s0 cn cl ts lg]; destruct s0; cbn. same_log.
  - destruct w as [s cn cl ts lg]. destruct s. cbn.
    destruct connectionPromiseRef0; cbn; same_log.
Qed.

Lemma seg_subscribe_inv (t : Task) (w : World) :
  handlers_inv w -> handlers_inv (seg_subscribe t w).1.
Proof.
  unfold seg_subscribe.
  destruct (currentRoomRef (refs w)) as [r |] eqn:Hr;
    [| apply same_handlers_inv, setupChat_catch_same].
  destruct (subscriptionsRef (refs w)) as [| x rest] eqn:Hsubs.
  - intros [_ Hcount]. split.
    + right. exists r, (t_user t).
      destruct w as [s cn cl ts lg]. destruct s. reflexivity.
    + intros k. specialize (Hcount k). rewrite Hsubs in Hcount.
      destruct w as [s cn cl ts lg]. destruct s.
      cbn [fst refs log emit on_refs set_subscriptionsRef subscriptionsRef] in *.
      rewrite <- !app_assoc, registrations_app, cancellations_app, Hcount.
      destruct k; reflexivity.
  - apply same_handlers_inv.
    destruct w as [s cn cl ts lg]. destruct s. cbn. same_log.
Qed.

Lemma resume_inv (t : Task) (r : AwaitResult) (w : World) :
  handlers_inv w -> handlers_inv (resume t r w).1.
Proof.
  intros Hinv. unfold resume.
  destruct (pc t) eqn:Hpc, r as [| [room |] | | h | |]; try exact Hinv;
    cbn [fst].
  all: try match goal with
           | |- context [seg_subscribe] =>
               apply seg_subscribe_inv; revert Hinv; apply same_handlers_inv;
               destruct (loadHistory_frame h (refs w)) as (_ & _ & Hs);
               destruct h; destruct w as [s cn cl ts lg];
               cbn [refs on_refs emit log conn clients tasks] in *;
               (split; [exact Hs |]);
               [ eexists; split; [reflexivity | repeat constructor]
               | exists []; split; [symmetry; apply app_nil_r | constructor] ]
           end.
  all: revert Hinv; apply same_handlers_inv.
  all: try apply setupChat_catch_same.
  all: try apply room_catch_same.
  all: try apply seg_room_ready_same.
  all: destruct w as [s cn cl ts lg]; destruct s; cbn;
       try destruct currentRoomRef0; cbn; same_log.
Qed.

Lemma settle_connection_same (o : ConnOutcome) (t : Task) (w : World) :
  same_handlers w (settle_connection o t w).1.
Proof.
  destruct o; cbn [settle_connection fst];
    [apply seg_connected_same | apply setupChat_catch_same | apply setupChat_catch_same].
Qed.

Lemma resume_connect_same (o : ConnOutcome) (ts : list Task) (w : World) :
  same_handlers w (resume_connect o ts w).1.
Proof.
  revert w. induction ts as [| t rest IH]; intros w; [apply same_handlers_refl |].
  cbn [resume_connect].
  destruct (pc t).
  - pose proof (settle_connection_same o t w) as Hs.
    destruct (settle_connection o t w) as [w1 t'].
    specialize (IH w1). destruct (resume_connect o rest w1) as [w2 rest'].
    cbn [fst] in *. eapply same_handlers_trans; eassumption.
  - specialize (IH w). destruct (resume_connect o rest w). exact IH.
  - specialize (IH w). destruct (resume_connect o rest w). exact IH.
  - specialize (IH w). destruct (resume_connect o rest w). exact IH.
  - specialize (IH w). destruct (resume_connect o rest w). exact IH.
  - specialize (IH w). destruct (resume_connect o rest w). exact IH.
Qed.

Lemma set_tasks_same (ts : list Task) (w : World) : same_handlers w (set_tasks ts w).
Proof. destruct w. cbn. same_log. Qed.

Lemma teardown_cancels (unsub_throws : Subscription -> bool) (k : SubKind)
    (subs : list Subscription) :
  cancellations k
    (flat_map (fun sub =>
                 Unsubscribe (sub_kind sub) ::
                   (if unsub_throws sub then [ConsoleError "Error unsubscribing:"] else []))
              subs) = held k subs
  /\ registrations k
       (flat_map (fun sub =>
                    Unsubscribe (sub_kind sub) ::
                      (if unsub_throws sub then [ConsoleError "Error unsubscribing:"] else []))
                 subs) = 0%nat.
Proof.
  induction subs as [| sub rest [IHc IHr]]; [split; reflexivity |].
  cbn [flat_map]. change (?x :: ?l ++ ?r) with ((x :: l) ++ r).
  rewrite cancellations_app, registrations_app, IHc, IHr.
  unfold held, cancellations, registrations.
  destruct (unsub_throws sub); cbn; destruct (bool_decide (sub_kind sub = k));
    split; reflexivity.
Qed.

Lemma step_inv (w : World) (e : Event) : handlers_inv w -> handlers_inv (step w e).
Proof.
  intros Hinv. destruct e as [session name | o | i r | u d]; cbn [step].
  - pose proof (setupChat_same session name (set_tasks (map unmounted (tasks w)) w)) as Hs.
    destruct (setupChat session name _) as [w1 t]. cbn [fst] in Hs.
    revert Hinv. apply same_handlers_inv.
    eapply same_handlers_trans; [apply set_tasks_same |].
    eapply same_handlers_trans; [exact Hs | apply set_tasks_same].
  - destruct (connectionPromiseRef (refs w)) as [c |]; [| exact Hinv].
    match goal with
    | |- context [resume_connect o ?ts ?w0] =>
        pose proof (resume_connect_same o ts w0) as Hs;
        destruct (resume_connect o ts w0) as [w1 ts1]
    end.
    cbn [fst] in Hs. revert Hinv. apply same_handlers_inv.
    eapply same_handlers_trans; [| apply set_tasks_same].
    eapply same_handlers_trans; [| exact Hs].
    destruct w as [s cn cl ts lg]. destruct s. destruct o; cbn; same_log.
  - destruct (tasks w !! i) as [t |]; [| exact Hinv].
    pose proof (resume_inv t r w Hinv) as Hs.
    destruct (resume t r w) as [w1 t']. cbn [fst] in Hs.
    revert Hs. apply same_handlers_inv, set_tasks_same.
  - destruct Hinv as [_ Hcount]. unfold teardown.
    destruct w as [s cn cl ts lg]. destruct s.
    cbn [refs log tasks set_tasks subscriptionsRef] in *.
    split.
    + unfold subscriptions_ok. cbn. destruct currentRoomRef0; left; reflexivity.
    + intros k. specialize (Hcount k).
      destruct (teardown_cancels u k subscriptionsRef0) as [Hc Hr].
      destruct currentRoomRef0 as [held_room |];
        cbn -[registrations cancellations held flat_map];
        rewrite registrations_app, cancellations_app, Hcount;
        rewrite registrations_app, cancellations_app, Hc, Hr;
        unfold held, registrations, cancellations;
        try destruct d; cbn; lia.
Qed.

Lemma run_inv (es : list Event) (w : World) : handlers_inv w -> handlers_inv (run w es).
Proof.
  revert w. induction es as [| e rest IH]; intros w Hinv; [exact Hinv |].
  cbn [run fold_left]. apply IH, step_inv, Hinv.
Qed.

End Lifecycle.

(** X15. Through every run of the component, failures, retries and
    unmounts included, the component holds either no subscription or
    exactly the four of one setup (messages, reactions, typing,
    presence), and for each kind every [subscribe] call issued so far is
    matched either by an [unsubscribe] call issued since or by the one
    handle of that kind in the slot: a second activation never registers
    a second set next to the first. *)
Theorem subscriptions_never_duplicated (es : list Event) (k : SubKind) :
  let w := run initial_world es in
  subscriptions_ok w
  /\ (length (subscriptionsRef (refs w)) <= 4)%nat
  /\ registrations k (log w)
     = (cancellations k (log w) + held k (subscriptionsRef (refs w)))%nat
  /\ (registrations k (log w) <= cancellations k (log w) + 1)%nat.
Proof.
  intros w.
  assert (Hinv : handlers_inv w).
  { apply run_inv. split; [left; reflexivity | intros k'; reflexivity]. }
  destruct Hinv as [Hok Hcount].
  assert (Hheld : (held k (subscriptionsRef (refs w)) <= 1)%nat).
  { destruct Hok as [-> | (r & u & ->)]; destruct k; vm_compute; lia. }
  split; [exact Hok |].
  split; [destruct Hok as [-> | (r & u & ->)]; cbn; lia |].
  split; [apply Hcount |].
  rewrite Hcount. lia.
Qed.

Example second_activation_registers_nothing :
  let activate := EffectRun (Some alice) (js "Bright Hawk") in
  let w := run initial_world
             [activate; ConnectionSettles ConnConnected;
              Settle 0 (RoomsGetOk (Some 7%nat)); Settle 0 AttachOk;
              Settle 0 (HistoryDone (HistoryResponse true []));
              Settle 0 Rejected; activate;
              Settle 0 (HistoryDone (HistoryResponse true []))] in
  registrations MessagesSub (log w) = 1%nat
  /\ subscriptionsRef (refs w) = four_subscriptions 7 alice
  /\ List.filter (fun e => bool_decide (e = FetchHistory)) (log w)
     = [FetchHistory; FetchHistory].
Proof. vm_compute. repeat split. Qed.

(** X16. When the awaited connection fails or times out, the callback
    of the promise logs its error and empties the promise slot, and the
    suspended activation ends in the catch, which logs the message and
    the stack and resets the flag: three errors are logged. The next
    activation is not stopped by the guard and, the client in the slot
    not being connected, makes a new client and a new connection
    attempt. *)
Theorem retry_after_connection_failure (w : World) (t : Task) (c : nat)
    (o : ConnOutcome) (user : User) (name : jsstring) :
  tasks w = [t] ->
  pc t = AwaitConnect ->
  connectionPromiseRef (refs w) = Some c ->
  realtimeClientRef (refs w) = Some c ->
  o <> ConnConnected ->
  let w1 := step w (ConnectionSettles o) in
  let w2 := step w1 (EffectRun (Some user) name) in
  isInitializedRef (refs w1) = false
  /\ tasks w1 = []
  /\ connectionPromiseRef (refs w1) = None
  /\ log w1 = log w ++ [ConsoleError (match o with
                                       | ConnTimeout => "Connection timeout - client state:"
                                       | _ => "Ably connection failed:"
                                       end);
                         ConsoleError "Failed to setup chat:";
                         ConsoleError "Error details:"]
  /\ log w2 = log w1 ++ [NewRealtime (clients w) (email user)]
  /\ tasks w2 = [mkTask AwaitConnect true (clients w) user name]
  /\ realtimeClientRef (refs w2) = Some (clients w)
  /\ isInitializedRef (refs w2) = true.
Proof.
  intros Hts Hpc Hp Hc Ho.
  destruct w as [s cn cl ts lg]. destruct s. destruct t as [p m c0 u n].
  cbn in Hts, Hpc, Hp, Hc. subst.
  assert (Hconn : (<[c := conn_after o]> cn) !! c = Some (conn_after o))
    by apply lookup_insert_eq.
  destruct o; [contradiction | |]; cbn in Hconn |- *;
    unfold setupChat; cbn; rewrite Hconn; cbn; rewrite <- ?app_assoc;
    repeat split.
Qed.

Lemma retry_after_connection_failure_witness :
  let w := step initial_world (EffectRun (Some alice) (js "Bright Hawk")) in
  let w1 := step w (ConnectionSettles ConnTimeout) in
  let w2 := step w1 (EffectRun (Some alice) (js "Bright Hawk")) in
  isInitializedRef (refs w1) = false
  /\ connection_attempts w2 = 2%nat.
Proof.
  intros w w1 w2.
  destruct (retry_after_connection_failure w
              (mkTask AwaitConnect true 0 alice (js "Bright Hawk")) 0 ConnTimeout
              alice (js "Bright Hawk"))
    as (Hflag & _ & _ & Hlog1 & Hlog2 & _);
    [reflexivity | reflexivity | reflexivity | reflexivity | discriminate |].
  split; [exact Hflag |].
  unfold connection_attempts. fold w1 w2 in Hlog1, Hlog2.
  rewrite Hlog2, Hlog1. reflexivity.
Defined.

(** X17. When [attach] rejects, the room handle obtained just before
    stays in its slot. The next activation then finds a room in the slot
    and goes on without attaching: with the connection still up it sets
    the room state and goes straight to the history fetch, and neither
    [rooms.get] nor [attach] is called again. *)
Theorem retry_after_attach_failure (w : World) (t : Task) (c chat r : nat)
    (user : User) (name : jsstring) :
  tasks w = [t] ->
  pc t = AwaitAttach ->
  currentRoomRef (refs w) = Some r ->
  realtimeClientRef (refs w) = Some c ->
  chatClientRef (refs w) = Some chat ->
  conn w !! c = Some StConnected ->
  let w1 := step w (Settle 0 Rejected) in
  let w2 := step w1 (EffectRun (Some user) name) in
  isInitializedRef (refs w1) = false
  /\ currentRoomRef (refs w1) = Some r
  /\ tasks w1 = []
  /\ log w2 = log w1 ++ [FetchHistory]
  /\ tasks w2 = [mkTask AwaitHistory true c user name]
  /\ room (refs w2) = Some r
  /\ isInitializedRef (refs w2) = true.
Proof.
  intros Hts Hpc Hroom Hc Hchat Hconn.
  destruct w as [s cn cl ts lg]. destruct s. destruct t as [p m c0 u n].
  cbn in Hts, Hpc, Hroom, Hc, Hchat, Hconn. subst.
  cbn. unfold setupChat. cbn. rewrite Hconn. cbn. repeat split.
Qed.

Lemma retry_after_attach_failure_witness :
  let activate := EffectRun (Some alice) (js "Bright Hawk") in
  let w := run initial_world [activate; ConnectionSettles ConnConnected;
                              Settle 0 (RoomsGetOk (Some 7%nat))] in
  let w2 := run w [Settle 0 Rejected; activate] in
  room_attaches w2 = 1%nat
  /\ room (refs w2) = Some 7%nat
  /\ tasks w2 = [mkTask AwaitHistory true 0 alice (js "Bright Hawk")].
Proof.
  intros activate w w2.
  destruct (retry_after_attach_failure w
              (mkTask AwaitAttach true 0 alice (js "Bright Hawk")) 0 0 7
              alice (js "Bright Hawk"))
    as (_ & _ & _ & _ & Htasks & Hroom & _);
    [reflexivity | reflexivity | reflexivity | reflexivity | reflexivity
    | reflexivity |].
  split; [vm_compute; reflexivity | split; [exact Hroom | exact Htasks]].
Defined.

(** X18. A history load that fails (the fetch or the parsing throws, or
    the answer is not a success) does not stop the activation: the list,
    the dedup set and the name cache stay as they were, the failure is at
    most logged, and the setup goes on to register the four handlers and
    to enter presence. *)
Theorem history_failure_not_fatal (w : World) (t : Task) (r : nat)
    (h : HistoryResult) :
  tasks w = [t] ->
  pc t = AwaitHistory ->
  currentRoomRef (refs w) = Some r ->
  subscriptionsRef (refs w) = [] ->
  (h = HistoryRejects \/ exists body, h = HistoryResponse false body) ->
  let w1 := step w (Settle 0 (HistoryDone h)) in
  messages (refs w1) = messages (refs w)
  /\ messageIdsRef (refs w1) = messageIdsRef (refs w)
  /\ flonaNameCacheRef (refs w1) = flonaNameCacheRef (refs w)
  /\ isInitializedRef (refs w1) = isInitializedRef (refs w)
  /\ subscriptionsRef (refs w1) = four_subscriptions r (t_user t)
  /\ tasks w1 = [at_pc AwaitPresenceEnter t]
  /\ (exists logged,
        log w1 = log w ++ logged
                 ++ [Subscribe MessagesSub; Subscribe ReactionsSub;
                     Subscribe TypingSub; Subscribe PresenceSub;
                     PresenceEnter (t_name t)]
        /\ Forall (fun e => exists what, e = ConsoleError what) logged).
Proof.
  intros Hts Hpc Hroom Hsubs Hh.
  destruct w as [s cn cl ts lg]. destruct s. destruct t as [p m c0 u n].
  cbn in Hts, Hpc, Hroom, Hsubs. subst.
  destruct Hh as [-> | [body ->]]; cbn; repeat split.
  - exists [ConsoleError "Failed to load message history:"].
    split; [rewrite <- !app_assoc; reflexivity |].
    constructor; [eexists; reflexivity | constructor].
  - exists []. split; [rewrite <- !app_assoc; reflexivity | constructor].
Qed.

Lemma history_failure_not_fatal_witness :
  let activate := EffectRun (Some alice) (js "Bright Hawk") in
  let w := run initial_world [activate; ConnectionSettles ConnConnected;
                              Settle 0 (RoomsGetOk (Some 7%nat)); Settle 0 AttachOk] in
  let w1 := step w (Settle 0 (HistoryDone HistoryRejects)) in
  messages (refs w1) = []
  /\ subscriptionsRef (refs w1) = four_subscriptions 7 alice.
Proof.
  intros activate w w1.
  destruct (history_failure_not_fatal w
              (mkTask AwaitHistory true 0 alice (js "Bright Hawk")) 7 HistoryRejects)
    as (Hm & _ & _ & _ & Hs & _);
    [reflexivity | reflexivity | reflexivity | reflexivity | left; reflexivity |].
  split; [exact Hm | exact Hs].
Defined.
